(** * JSONAPIAdapter (packages/adapter/addon/json-api.js)

    A shallow embedding of the JSON:API adapter: the field-tracking cache
    ([hasSomeFields], [equalFields], [captureFields], [shouldReloadRecord],
    [findRecord]), [findMany], [pathForType], [ajaxOptions] and
    [buildQuery].

    Conventions of the embedding.
    - A JavaScript string is a [string]; one [ascii] stands for one code
      unit below 256.
    - A field mapping ([snapshot.adapterOptions.fields]) is a plain object
      whose own properties map a group name to a comma-delimited string.
      It is kept as the list of its own properties in enumeration order,
      which is the order [for ... in] visits them.  Reading a property
      goes through the prototype chain: a key that is no own property but
      names a member of [Object.prototype] reads that member.
    - A call either returns a value or throws; [hasSomeFields] throws a
      [TypeError] when its first argument has no [split].
    - [FieldsForRecord] is a module-level [WeakMap] keyed by record
      identity; it is a finite map from record references to arrays of
      field mappings.  No function of the module writes into a field
      mapping, so an array of mappings is kept by value.
    - Methods that touch [FieldsForRecord] or hand a request to
      [this.ajax] are actions of a state and exception monad over
      [world]; the inflector is a library outside the module with a
      state of its own. *)

From Stdlib Require Import ZArith Ascii String List Bool Lia.
From stdpp Require Import base option list gmap strings.

Local Open Scope string_scope.
Local Open Scope list_scope.

(** ** Completions *)

Inductive exception : Type :=
  | TypeError.

(** How a call ends: it returns a value or throws. *)
Inductive outcome (A : Type) : Type :=
  | Returned (a : A)
  | Thrown (e : exception).

Arguments Returned {A} a.
Arguments Thrown {A} e.

(** ** JavaScript strings and arrays *)

Module JS.

(** [WhiteSpace] and [LineTerminator] code units below 256:
    TAB, LF, VT, FF, CR, SP and NBSP. *)
Definition isWhiteSpace (c : ascii) : bool :=
  match nat_of_ascii c with
  | 9 | 10 | 11 | 12 | 13 | 32 | 160 => true
  | _ => false
  end.

Fixpoint trimStart (s : string) : string :=
  match s with
  | EmptyString => EmptyString
  | String c s' => if isWhiteSpace c then trimStart s' else s
  end.

Fixpoint trimEnd (s : string) : string :=
  match s with
  | EmptyString => EmptyString
  | String c s' =>
      match trimEnd s' with
      | EmptyString => if isWhiteSpace c then EmptyString else String c EmptyString
      | r => String c r
      end
  end.

(** [String.prototype.trim] *)
Definition trim (s : string) : string := trimEnd (trimStart s).

(** [String.prototype.split] with a one-character separator: the result
    always has at least one element, [split sep ""] is [[""]]. *)
Fixpoint split (sep : ascii) (s : string) : list string :=
  match s with
  | EmptyString => [EmptyString]
  | String c s' =>
      if Ascii.eqb c sep then EmptyString :: split sep s'
      else match split sep s' with
           | h :: t => String c h :: t
           | [] => [String c EmptyString]
           end
  end.

(** [Array.prototype.join] on an array of strings. *)
Fixpoint join (sep : string) (l : list string) : string :=
  match l with
  | [] => EmptyString
  | [x] => x
  | x :: l' => (x ++ sep ++ join sep l')%string
  end.

Fixpoint indexOf_from (l : list string) (x : string) (i : Z) : Z :=
  match l with
  | [] => (-1)%Z
  | y :: l' => if String.eqb y x then i else indexOf_from l' x (i + 1)%Z
  end.

(** [Array.prototype.indexOf]: the first index holding [x], or [-1]. *)
Definition indexOf (l : list string) (x : string) : Z := indexOf_from l x 0%Z.

(** [Array.prototype.every] *)
Definition every {A} (f : A -> bool) (l : list A) : bool := forallb f l.

(** A callback result that is [undefined], [true] or [false]. *)
Definition truthy (v : option bool) : bool :=
  match v with
  | Some true => true
  | _ => false
  end.

(** [Array.prototype.some]: stops at the first truthy callback result;
    an exception of the callback ends the iteration and is passed on. *)
Fixpoint some {A} (f : A -> outcome (option bool)) (l : list A) : outcome bool :=
  match l with
  | [] => Returned false
  | x :: l' =>
      match f x with
      | Returned v => if truthy v then Returned true else some f l'
      | Thrown e => Thrown e
      end
  end.

End JS.

(** ** Field mappings *)

(** The own properties of a field-mapping object, in enumeration order. *)
Definition fields : Type := list (string * string).

(** The own property [key] of [obj], if it has one. *)
Fixpoint get (obj : fields) (key : string) : option string :=
  match obj with
  | [] => None
  | (k, v) :: obj' => if String.eqb k key then Some v else get obj' key
  end.

(** The keys [for (let key in obj)] visits: the own properties; the
    members of [Object.prototype] are not enumerable. *)
Definition keys (obj : fields) : list string := map fst obj.

(** The members a plain object inherits from [Object.prototype]. *)
Definition objectPrototypeMembers : list string :=
  ["constructor"; "hasOwnProperty"; "isPrototypeOf"; "propertyIsEnumerable";
   "toLocaleString"; "toString"; "valueOf"; "__proto__";
   "__defineGetter__"; "__defineSetter__"; "__lookupGetter__"; "__lookupSetter__"].

Definition inherited (key : string) : bool :=
  existsb (String.eqb key) objectPrototypeMembers.

(** What [obj[key]] can be: [undefined], a string, or a member of
    [Object.prototype] (a function, or the prototype itself for
    [__proto__]), which is truthy and has no [split]. *)
Inductive value : Type :=
  | VUndefined
  | VString (s : string)
  | VInherited.

(** [obj[key]]: the own property, else the inherited member, else
    [undefined]. *)
Definition getValue (obj : fields) (key : string) : value :=
  match get obj key with
  | Some v => VString v
  | None => if inherited key then VInherited else VUndefined
  end.

(** ** The coverage test *)

Definition hasSomeFields (cachedFields snapshotFields : string) : bool :=
  let listOfCachedFields := map JS.trim (JS.split "," cachedFields) in
  let listOfSnapshotFields := map JS.trim (JS.split "," snapshotFields) in
  JS.every (fun i => (JS.indexOf listOfCachedFields i >? -1)%Z) listOfSnapshotFields
  || ((length listOfSnapshotFields <? length listOfCachedFields)%nat
      && JS.every (fun i => (JS.indexOf listOfCachedFields i >? -1)%Z) listOfSnapshotFields).

(** The call [hasSomeFields(entry[key], snapshotFields[key])] on values:
    [cachedFields.split] comes first and throws when [cachedFields] is
    no string, then [snapshotFields.split]. *)
Definition hasSomeFields_call (cachedFields snapshotFields : value) : outcome bool :=
  match cachedFields, snapshotFields with
  | VString cached, VString requested => Returned (hasSomeFields cached requested)
  | _, _ => Thrown TypeError
  end.

(** One turn of the [for ... in] loop of [equalFields]: the new value of
    [isEqual].  [entry[key]] is truthy when it is a non-empty string or
    an inherited member. *)
Definition equalFields_step (entry snapshotFields : fields) (key : string) : outcome bool :=
  match getValue entry key with
  | VUndefined => Returned false
  | VString EmptyString => Returned false
  | cached => hasSomeFields_call cached (getValue snapshotFields key)
  end.

(** The loop over the remaining keys, [isEqual] threaded through; it
    breaks as soon as [isEqual === false]. *)
Fixpoint equalFields_loop (entry snapshotFields : fields) (ks : list string)
    (isEqual : option bool) : outcome (option bool) :=
  match ks with
  | [] => Returned isEqual
  | key :: ks' =>
      match equalFields_step entry snapshotFields key with
      | Returned true => equalFields_loop entry snapshotFields ks' (Some true)
      | Returned false => Returned (Some false)
      | Thrown e => Thrown e
      end
  end.

(** The callback given to [some]: [isEqual] starts out [undefined]. *)
Definition equalFields_entry (snapshotFields entry : fields) : outcome (option bool) :=
  equalFields_loop entry snapshotFields (keys snapshotFields) None.

Definition equalFields (cachedFields : list fields) (snapshotFields : fields) : outcome bool :=
  JS.some (equalFields_entry snapshotFields) cachedFields.

(** ** The module state and the requests handed to the transport *)

Set Warnings "-register-all".

(** A JSON value: request options and response bodies. *)
Inductive json : Type :=
  | JNull
  | JBool (b : bool)
  | JNum (n : Z)
  | JStr (s : string)
  | JArr (items : list json)
  | JObj (members : list (string * json)).

(** The arguments of one call of [this.ajax(url, type, options)]. *)
Record request : Type := Request {
  url : string;
  type : string;
  options : json;
}.

(** The identity of a record object, the key of the [WeakMap]. *)
Abbreviation recordRef := positive.

Record world : Type := World {
  FieldsForRecord : gmap recordRef (list fields);
  (** calls of [this.ajax], oldest first *)
  ajaxCalls : list request;
  (** ids of the deprecations raised, oldest first *)
  deprecations : list string;
}.

Definition emptyWorld : world := World ∅ [] [].

(** The history of a record: an absent [WeakMap] entry has no entries. *)
Definition history (w : world) (rec : recordRef) : list fields :=
  default [] (FieldsForRecord w !! rec).

(** An action on the module state that returns or throws; what it has
    written before a throw stays written. *)
Definition M (A : Type) : Type := world -> outcome A * world.

Definition ret {A} (a : A) : M A := fun w => (Returned a, w).

Definition bind {A B} (c : M A) (k : A -> M B) : M B :=
  fun w =>
    match c w with
    | (Returned a, w') => k a w'
    | (Thrown e, w') => (Thrown e, w')
    end.

(** A computation that touches no state. *)
Definition evaluate {A} (o : outcome A) : M A := fun w => (o, w).

Notation "'let!' x ':=' c 'in' k" := (bind c (fun x => k))
  (at level 10, x name, c at level 100, k at level 200).

(** [FieldsForRecord.get(record)] *)
Definition FieldsForRecord_get (rec : recordRef) : M (option (list fields)) :=
  fun w => (Returned (FieldsForRecord w !! rec), w).

(** [FieldsForRecord.set(record, value)] *)
Definition FieldsForRecord_set (rec : recordRef) (value : list fields) : M unit :=
  fun w => (Returned tt,
            World (<[rec := value]> (FieldsForRecord w)) (ajaxCalls w) (deprecations w)).

(** [this.ajax(url, type, options)]: the call is logged; the promise it
    returns is the position of the call in the log. *)
Definition ajax (u ty : string) (opts : json) : M nat :=
  fun w => (Returned (length (ajaxCalls w)),
            World (FieldsForRecord w) (ajaxCalls w ++ [Request u ty opts]) (deprecations w)).

(** [deprecate(message, false, { id, until })] *)
Definition deprecate (id : string) : M unit :=
  fun w => (Returned tt,
            World (FieldsForRecord w) (ajaxCalls w) (deprecations w ++ [id])).

(** ** captureFields *)

(** [cachedFields.push(snapshotFields)] changes the array held by the
    [WeakMap] in place; the [set] that follows stores the same array. *)
Definition captureFields (rec : recordRef) (snapshotFields : fields) : M bool :=
  let! cachedFields := FieldsForRecord_get rec in
  match cachedFields with
  | Some (entry :: entries) =>
      let cachedFields := entry :: entries in
      let! seen := evaluate (equalFields cachedFields snapshotFields) in
      if seen then ret false
      else
        let cachedFields := cachedFields ++ [snapshotFields] in
        let! _ := FieldsForRecord_set rec cachedFields in
        ret true
  | Some [] | None =>
      let! _ := FieldsForRecord_set rec [snapshotFields] in
      ret true
  end.

(** ** The adapter *)

Record adapterOptions : Type := AdapterOptions {
  (** [None]: absent or falsy *)
  adapterOptions_fields : option fields;
}.

Record snapshot : Type := Snapshot {
  record : recordRef;
  id : string;
  snapshot_adapterOptions : option adapterOptions;
}.

Record modelClass : Type := ModelClass {
  modelName : string;
}.

Inductive store : Type := Store.

Record adapter : Type := Adapter {
  supportsJSONAPIFields : bool;
  coalesceFindRequests : bool;
  host : option string;
  namespace : option string;
}.

(** [snapshot.adapterOptions && snapshot.adapterOptions.fields] *)
Definition snapshotFields_of (s : snapshot) : option fields :=
  match snapshot_adapterOptions s with
  | Some o => adapterOptions_fields o
  | None => None
  end.

Definition shouldReloadRecord (this : adapter) (_ : store) (s : snapshot) : M bool :=
  if supportsJSONAPIFields this then
    match snapshotFields_of s with
    | Some snapshotFields => captureFields (record s) snapshotFields
    | None => ret false
    end
  else ret false.

Section Inherited.

(** Collaborators that are not part of the module.  The inflector
    ([dasherize] of [@ember/string], [pluralize] of [ember-inflector])
    is a library with a state of its own, [lib]: a call may read and
    change it.  The request the inherited [RESTAdapter.findRecord] hands
    to [this.ajax], and the assembly of host, namespace, path segment and
    ids into a URL done by the inherited URL builder, are functions of
    their arguments.  [FieldsForRecord] is private to the module, so
    none of them reads or writes it. *)
Context {lib : Type}.
Variable dasherize : string -> lib -> string * lib.
Variable pluralize : string -> lib -> string * lib.
Variable super_findRecord : adapter -> modelClass -> string -> snapshot -> request.
Variable assembleURL :
  option string -> option string -> string -> list string -> list snapshot -> string -> string.

Definition findRecord (this : adapter) (_ : store) (ty : modelClass) (i : string)
    (s : snapshot) : M nat :=
  let! _ :=
    match snapshotFields_of s with
    | Some snapshotFields =>
        if supportsJSONAPIFields this then
          let! _ := captureFields (record s) snapshotFields in ret tt
        else deprecate "ember-data:-built-in-fields-support"
    | None => ret tt
    end in
  let r := super_findRecord this ty i s in
  ajax (url r) (type r) (options r).

(** An action on the module state and the state of the inflector. *)
Definition ML (A : Type) : Type := world * lib -> outcome A * (world * lib).

Definition retL {A} (a : A) : ML A := fun s => (Returned a, s).

Definition bindL {A B} (c : ML A) (k : A -> ML B) : ML B :=
  fun s =>
    match c s with
    | (Returned a, s') => k a s'
    | (Thrown e, s') => (Thrown e, s')
    end.

Notation "'let*' x ':=' c 'in' k" := (bindL c (fun x => k))
  (at level 10, x name, c at level 100, k at level 200).

(** An action of the module, which leaves the inflector alone. *)
Definition inModule {A} (c : M A) : ML A :=
  fun s => (fst (c (fst s)), (snd (c (fst s)), snd s)).

(** A call into the inflector, which cannot reach the module state. *)
Definition external (f : lib -> string * lib) : ML string :=
  fun s => (Returned (fst (f (snd s))), (fst s, snd (f (snd s)))).

Definition pathForType (this : adapter) (modelName : string) : ML string :=
  let* dasherized := external (dasherize modelName) in
  external (pluralize dasherized).

(** Modelled from the spec: [buildURL] lives in the inherited URL builder,
    which is not among the sources.  It resolves the path segment of the
    resource type with [pathForType] and applies host, namespace, path
    segment and id segment in that order; the way the parts are glued is
    [assembleURL]. *)
Definition buildURL (this : adapter) (modelName : string) (ids : list string)
    (snapshots : list snapshot) (requestType : string) : ML string :=
  let* path := pathForType this modelName in
  retL (assembleURL (host this) (namespace this) path ids snapshots requestType).

Definition findMany (this : adapter) (_ : store) (ty : modelClass) (ids : list string)
    (snapshots : list snapshot) : ML nat :=
  let* url := buildURL this (modelName ty) ids snapshots "findMany" in
  inModule
    (ajax url "GET" (JObj [("data", JObj [("filter", JObj [("id", JStr (JS.join "," ids))])])])).

(** A call that reaches the field-tracking cache. *)
Inductive call : Type :=
  | CaptureFields (rec : recordRef) (snapshotFields : fields)
  | ShouldReloadRecord (this : adapter) (st : store) (s : snapshot)
  | FindRecord (this : adapter) (st : store) (ty : modelClass) (i : string) (s : snapshot).

Definition perform (c : call) : M unit :=
  match c with
  | CaptureFields rec snapshotFields =>
      let! _ := captureFields rec snapshotFields in ret tt
  | ShouldReloadRecord this st s =>
      let! _ := shouldReloadRecord this st s in ret tt
  | FindRecord this st ty i s =>
      let! _ := findRecord this st ty i s in ret tt
  end.

(** A sequence of calls made by callers of the module, one after the
    other: a call that throws ends there, and the next call finds the
    world as that one left it. *)
Fixpoint performAll (cs : list call) : M unit :=
  match cs with
  | [] => ret tt
  | c :: cs' => fun w => performAll cs' (snd (perform c w))
  end.

End Inherited.

(** ** The response classifier *)

(** What the transport reports for a dispatched request. *)
Inductive transportResult : Type :=
  | Responded (status : Z) (body : json)
  | TransportFailed (reason : string).

Inductive ResponseOutcome : Type :=
  | Success (payload : json)
  | Invalid (errors : option json)
  | AdapterError (statusCode : Z) (detail : string).

(** [body[key]] of a response body; [None] stands for [undefined]. *)
Fixpoint member (key : string) (members : list (string * json)) : option json :=
  match members with
  | [] => None
  | (k, v) :: members' => if String.eqb k key then Some v else member key members'
  end.

Definition bodyKey (key : string) (body : json) : option json :=
  match body with
  | JObj members => member key members
  | _ => None
  end.

Section Classifier.

(** The best-effort detail message and the status code reported for a
    transport failure are left open by the specification. *)
Variable detailOfBody : Z -> json -> string.
Variable detailOfFailure : string -> string.
Variable failureStatus : Z.

(** Modelled from the spec: the classifier is inherited from the REST
    adapter, which is not among the sources.  Status 200-299 or 304 is
    [Success] with the raw body; 422 is [Invalid] with only the [errors]
    key of the body; anything else, a transport failure included, is
    [AdapterError] with the status code and a detail message. *)
Definition classify (r : transportResult) : ResponseOutcome :=
  match r with
  | Responded status body =>
      if ((200 <=? status) && (status <=? 299) || (status =? 304))%Z then Success body
      else if (status =? 422)%Z then Invalid (bodyKey "errors" body)
      else AdapterError status (detailOfBody status body)
  | TransportFailed reason => AdapterError failureStatus (detailOfFailure reason)
  end.

End Classifier.

(** ** The specification's vocabulary *)

(** The set of field names a comma-delimited string stands for. *)
Definition fieldSet (s : string) : list string := map JS.trim (JS.split "," s).

(** The plain test "every requested field is among the cached ones". *)
Definition requestedSubsetOfCached (cachedFields snapshotFields : string) : bool :=
  forallb (fun f => bool_decide (f ∈ fieldSet cachedFields)) (fieldSet snapshotFields).

(** The cached field set of a history entry for a group; an entry without
    the group has cached nothing for it. *)
Definition cachedSet (entry : fields) (key : string) : list string :=
  match get entry key with
  | Some cached => fieldSet cached
  | None => []
  end.


(** Coverage as the code tests it: the cached string of every requested
    group is moreover a non-empty string. *)
Definition coversTruthy (entry request : fields) : Prop :=
  forall key, key ∈ keys request ->
    exists cached requested,
      get entry key = Some cached /\ cached <> "" /\
      get request key = Some requested /\
      fieldSet requested ⊆ fieldSet cached.

(** A field mapping none of whose field strings is empty. *)
Definition noEmptyString (obj : fields) : Prop :=
  forall key value, (key, value) ∈ obj -> value <> "".

(** A field mapping none of whose group keys names a member of
    [Object.prototype]. *)
Definition plainKeys (obj : fields) : bool :=
  forallb (fun key => negb (inherited key)) (keys obj).

(** The test of one group on own properties: the entry holds a
    non-empty string for the group and it covers the requested one. *)
Definition coversGroup (entry request : fields) (key : string) : bool :=
  match get entry key, get request key with
  | Some cached, Some requested =>
      negb (String.eqb cached "") && hasSomeFields cached requested
  | _, _ => false
  end.


(** The world in which the history of [rec] is [h] and nothing else differs. *)
Definition withHistory (w : world) (rec : recordRef) (h : list fields) : world :=
  World (<[rec := h]> (FieldsForRecord w)) (ajaxCalls w) (deprecations w).

(** The world after one more call of [this.ajax]. *)
Definition withRequest (w : world) (r : request) : world :=
  World (FieldsForRecord w) (ajaxCalls w ++ [r]) (deprecations w).

(** [w'] keeps every history entry of [w] in place and in order, and
    has at most [n] more entries per record. *)
Definition grows (n : nat) (w w' : world) : Prop :=
  forall rec, exists added,
    history w' rec = history w rec ++ added /\ length added <= n.

(** A string that holds the code unit [c]. *)
Fixpoint hasChar (c : ascii) (s : string) : bool :=
  match s with
  | EmptyString => false
  | String c' s' => Ascii.eqb c' c || hasChar c s'
  end.

(** The world in which record 1 has been fetched once with [fs]. *)
Definition fetchedOnce (fs : fields) : world := withHistory emptyWorld 1 [fs].

(** ** The remaining methods of the adapter *)

(** [obj[key]] on an object with values of any kind. *)
Fixpoint getProp {V} (obj : list (string * V)) (key : string) : option V :=
  match obj with
  | [] => None
  | (k, v) :: obj' => if String.eqb k key then Some v else getProp obj' key
  end.

(** [obj[key] = value]: an own property keeps its place, a new one goes
    last in enumeration order. *)
Fixpoint setProp {V} (obj : list (string * V)) (key : string) (value : V)
    : list (string * V) :=
  match obj with
  | [] => [(key, value)]
  | (k, v) :: obj' =>
      if String.eqb k key then (k, value) :: obj'
      else (k, v) :: setProp obj' key value
  end.

(** The settings object [ajaxOptions] answers: its [headers] object
    (header name to header string) and everything else in it. *)
Record hash : Type := Hash {
  headers : list (string * string);
  settings : json;
}.

(** A value of the query object: the snapshot's field mapping, or
    anything the inherited [buildQuery] has put there. *)
Inductive queryValue : Type :=
  | QJson (j : json)
  | QFields (f : fields).

Section InheritedSettings.

(** The inherited [ajaxOptions] and [buildQuery] of the REST adapter. *)
Variable super_ajaxOptions : adapter -> string -> string -> json -> hash.
Variable super_buildQuery : adapter -> snapshot -> list (string * queryValue).

(** [options = {}]: a missing argument is the empty object.  A header
    is falsy when it is absent or the empty string. *)
Definition ajaxOptions (this : adapter) (u ty : string) (opts : option json) : hash :=
  let opts := default (JObj []) opts in
  let hash := super_ajaxOptions this u ty opts in
  let accept :=
    match getProp (headers hash) "Accept" with
    | Some a => if String.eqb a "" then "application/vnd.api+json" else a
    | None => "application/vnd.api+json"
    end in
  Hash (setProp (headers hash) "Accept" accept) (settings hash).

Definition buildQuery (this : adapter) (s : snapshot) : list (string * queryValue) :=
  let query := super_buildQuery this s in
  match snapshot_adapterOptions s with
  | Some o =>
      match adapterOptions_fields o with
      | Some f => setProp query "fields" (QFields f)
      | None => query
      end
  | None => query
  end.

End InheritedSettings.

(** ** More vocabulary *)

(** A string of white space only. *)
Fixpoint allWhiteSpace (s : string) : bool :=
  match s with
  | EmptyString => true
  | String c s' => JS.isWhiteSpace c && allWhiteSpace s'
  end.

(** No entry of the history was covered by the entries before it when
    it was recorded. *)
Definition irredundant (h : list fields) : Prop :=
  forall before entry after,
    h = before ++ entry :: after -> equalFields before entry = Returned false.

(** What every world reached from the empty one satisfies: no [WeakMap]
    entry is an empty array and every history is irredundant. *)
Definition cacheInvariant (w : world) : Prop :=
  forall rec,
    FieldsForRecord w !! rec <> Some [] /\ irredundant (history w rec).

(** * Properties *)

(** ** Evaluation on small inputs *)

Example split_ex : JS.split "," "author, body,," = ["author"; " body"; ""; ""].
Proof. reflexivity. Qed.

Example split_empty_ex : JS.split "," "" = [""].
Proof. reflexivity. Qed.

Example trim_ex : JS.trim "  a b  " = "a b".
Proof. reflexivity. Qed.

Example indexOf_ex : JS.indexOf ["a"; "b"; "a"] "b" = 1%Z /\ JS.indexOf ["a"] "c" = (-1)%Z.
Proof. split; reflexivity. Qed.

Example hasSomeFields_subset_ex : hasSomeFields "author,body" " author" = true.
Proof. reflexivity. Qed.

Example hasSomeFields_superset_ex : hasSomeFields "author" "author,body" = false.
Proof. reflexivity. Qed.

Example equalFields_two_groups_ex :
  equalFields [[("posts", "title,body"); ("comments", "author,body")]]
              [("comments", " author "); ("posts", "title")] = Returned true.
Proof. reflexivity. Qed.

(** ** Arrays *)

Lemma indexOf_from_range (l : list string) (x : string) (i : Z) :
  (0 <= i)%Z -> (JS.indexOf_from l x i = -1 \/ i <= JS.indexOf_from l x i)%Z.
Proof.
  revert i. induction l as [|y l IH]; intros i Hi; simpl.
  - now left.
  - destruct (String.eqb y x).
    + right. lia.
    + destruct (IH (i + 1)%Z) as [H|H]; [lia | now left | right; lia].
Qed.

Lemma indexOf_from_found (l : list string) (x : string) (i : Z) :
  (0 <= i)%Z -> (JS.indexOf_from l x i >? -1)%Z = true <-> x ∈ l.
Proof.
  revert i. induction l as [|y l IH]; intros i Hi; simpl.
  - split; [intros H; lia | intros H; inversion H].
  - destruct (String.eqb_spec y x) as [->|Hne].
    + split; [intros _; left | intros _; lia].
    + rewrite IH by lia. rewrite elem_of_cons. split; [tauto|].
      intros [->|H]; [congruence | exact H].
Qed.

Lemma indexOf_found (l : list string) (x : string) :
  (JS.indexOf l x >? -1)%Z = true <-> x ∈ l.
Proof. apply indexOf_from_found. lia. Qed.

Lemma every_indexOf (cached requested : list string) :
  JS.every (fun i => (JS.indexOf cached i >? -1)%Z) requested = true <->
  requested ⊆ cached.
Proof.
  unfold JS.every. rewrite forallb_forall. split.
  - intros H x Hx. apply indexOf_found, H, list_elem_of_In, Hx.
  - intros H x Hx. apply indexOf_found, H, list_elem_of_In, Hx.
Qed.

Lemma split_nonempty (sep : ascii) (s : string) : JS.split sep s <> [].
Proof.
  destruct s as [|c s]; simpl; [discriminate|].
  destruct (Ascii.eqb c sep); [discriminate|].
  destruct (JS.split sep s); discriminate.
Qed.

Lemma fieldSet_nonempty (s : string) : fieldSet s <> [].
Proof.
  unfold fieldSet. intros H. apply fmap_nil_inv in H.
  exact (split_nonempty _ _ H).
Qed.

(** ** hasSomeFields *)

Lemma hasSomeFields_first_disjunct (cachedFields snapshotFields : string) :
  hasSomeFields cachedFields snapshotFields =
  JS.every (fun i => (JS.indexOf (fieldSet cachedFields) i >? -1)%Z) (fieldSet snapshotFields).
Proof.
  unfold hasSomeFields, fieldSet.
  destruct (JS.every _ _); simpl; [reflexivity|].
  now rewrite andb_false_r.
Qed.

Lemma hasSomeFields_subset (cachedFields snapshotFields : string) :
  hasSomeFields cachedFields snapshotFields = true <->
  fieldSet snapshotFields ⊆ fieldSet cachedFields.
Proof. rewrite hasSomeFields_first_disjunct. apply every_indexOf. Qed.

Lemma requestedSubsetOfCached_subset (cachedFields snapshotFields : string) :
  requestedSubsetOfCached cachedFields snapshotFields = true <->
  fieldSet snapshotFields ⊆ fieldSet cachedFields.
Proof.
  unfold requestedSubsetOfCached. rewrite forallb_forall. split.
  - intros H x Hx. apply list_elem_of_In, H in Hx. now apply bool_decide_eq_true in Hx.
  - intros H x Hx. apply bool_decide_eq_true, H, list_elem_of_In, Hx.
Qed.

(** C2: [hasSomeFields] answers [true] exactly when every trimmed field
    of [snapshotFields] occurs among the trimmed fields of [cachedFields];
    the length-comparison disjunct never changes the answer, so the
    function is the first disjunct alone and agrees everywhere with the
    plain requested-subset-of-cached test. *)
Theorem hasSomeFields_is_subset_test (cachedFields snapshotFields : string) :
  (hasSomeFields cachedFields snapshotFields = true <->
     forall f, f ∈ fieldSet snapshotFields -> f ∈ fieldSet cachedFields) /\
  hasSomeFields cachedFields snapshotFields =
    JS.every (fun i => (JS.indexOf (fieldSet cachedFields) i >? -1)%Z)
             (fieldSet snapshotFields) /\
  hasSomeFields cachedFields snapshotFields =
    requestedSubsetOfCached cachedFields snapshotFields.
Proof.
  split; [apply hasSomeFields_subset|].
  split; [apply hasSomeFields_first_disjunct|].
  apply eq_true_iff_eq.
  rewrite hasSomeFields_subset, requestedSubsetOfCached_subset. reflexivity.
Qed.

(** ** equalFields *)

Lemma get_keys (obj : fields) (key : string) :
  key ∈ keys obj -> is_Some (get obj key).
Proof.
  induction obj as [|[k v] obj IH]; simpl; intros H.
  - inversion H.
  - destruct (String.eqb_spec k key) as [_|Hne]; [eauto|].
    apply elem_of_cons in H as [H|H]; [congruence | exact (IH H)].
Qed.

Lemma get_elem_of (obj : fields) (key value : string) :
  get obj key = Some value -> (key, value) ∈ obj.
Proof.
  induction obj as [|[k v] obj IH]; simpl; [discriminate|].
  destruct (String.eqb_spec k key) as [->|_].
  - intros [= ->]. left.
  - intros H. right. exact (IH H).
Qed.

Lemma coversGroup_true (entry request : fields) (key : string) :
  coversGroup entry request key = true <->
  exists cached requested,
    get entry key = Some cached /\ cached <> "" /\
    get request key = Some requested /\
    fieldSet requested ⊆ fieldSet cached.
Proof.
  unfold coversGroup. split.
  - destruct (get entry key) as [cached|]; [|discriminate].
    destruct (get request key) as [requested|]; [|discriminate].
    intros H. apply andb_prop in H as [Hne H].
    exists cached, requested. repeat split; [|now apply hasSomeFields_subset].
    intros ->. discriminate.
  - intros (cached & requested & -> & Hne & -> & Hsub).
    apply andb_true_intro. split; [|now apply hasSomeFields_subset].
    destruct (String.eqb_spec cached ""); [contradiction | reflexivity].
Qed.

(** A turn of the loop that meets no inherited member answers by the
    own properties. *)
Lemma equalFields_step_own (entry request : fields) (key : string) :
  key ∈ keys request ->
  inherited key = false \/ is_Some (get entry key) ->
  equalFields_step entry request key = Returned (coversGroup entry request key).
Proof.
  intros Hkey Hown. destruct (get_keys _ _ Hkey) as [requested Hr].
  unfold equalFields_step, coversGroup, getValue. rewrite Hr.
  destruct (get entry key) as [cached|].
  - destruct cached as [|c cached]; reflexivity.
  - destruct Hown as [-> | [v Hv]]; [reflexivity | discriminate].
Qed.

(** A turn that finds no own property under the name of an inherited
    member throws. *)
Lemma equalFields_step_inherited (entry request : fields) (key : string) :
  get entry key = None -> inherited key = true ->
  equalFields_step entry request key = Thrown TypeError.
Proof.
  intros Hnone Hin. unfold equalFields_step, getValue. now rewrite Hnone, Hin.
Qed.

Lemma plainKeys_inherited (request : fields) (key : string) :
  plainKeys request = true -> key ∈ keys request -> inherited key = false.
Proof.
  unfold plainKeys. rewrite forallb_forall. intros H Hkey.
  apply list_elem_of_In, H in Hkey. now apply negb_true_iff in Hkey.
Qed.

Lemma equalFields_loop_plain (entry request : fields) (ks : list string)
    (isEqual : option bool) :
  (forall key, key ∈ ks -> key ∈ keys request /\ inherited key = false) ->
  equalFields_loop entry request ks isEqual =
  Returned (if forallb (coversGroup entry request) ks
            then match ks with [] => isEqual | _ :: _ => Some true end
            else Some false).
Proof.
  revert isEqual. induction ks as [|k ks IH]; intros isEqual Hks; simpl; [reflexivity|].
  destruct (Hks k) as [Hk Hplain]; [left|].
  rewrite (equalFields_step_own entry request k Hk (or_introl Hplain)).
  destruct (coversGroup entry request k); simpl; [|reflexivity].
  rewrite IH by (intros key Hkey; apply Hks; now right).
  destruct (forallb _ ks); [|reflexivity]. now destruct ks.
Qed.

Lemma equalFields_entry_plain (request entry : fields) :
  plainKeys request = true ->
  exists v, equalFields_entry request entry = Returned v /\
            (JS.truthy v = true <-> keys request <> [] /\ coversTruthy entry request).
Proof.
  intros Hplain. unfold equalFields_entry.
  rewrite equalFields_loop_plain
    by (intros key Hkey; split; [exact Hkey | exact (plainKeys_inherited _ _ Hplain Hkey)]).
  eexists. split; [reflexivity|]. unfold coversTruthy.
  destruct (forallb _ _) eqn:Hall.
  - rewrite forallb_forall in Hall.
    destruct (keys request) as [|k ks] eqn:Hks; simpl.
    + split; [discriminate | intros [H _]; congruence].
    + split; [|reflexivity]. intros _. split; [discriminate|].
      intros key Hkey. apply coversGroup_true, Hall, list_elem_of_In, Hkey.
  - simpl. split; [discriminate|]. intros [_ H].
    assert (forallb (coversGroup entry request) (keys request) = true) as Hall';
      [|congruence].
    apply forallb_forall. intros key Hkey.
    apply coversGroup_true, H, list_elem_of_In, Hkey.
Qed.

Lemma some_returned {A} (f : A -> outcome (option bool)) (l : list A) :
  (forall x, x ∈ l -> exists v, f x = Returned v) ->
  exists b, JS.some f l = Returned b /\
            (b = true <-> exists x v, x ∈ l /\ f x = Returned v /\ JS.truthy v = true).
Proof.
  induction l as [|x l IH]; intros Hl; simpl.
  - exists false. split; [reflexivity|].
    split; [discriminate | intros (x & v & H & _); inversion H].
  - destruct (Hl x) as [v Hv]; [left|]. rewrite Hv.
    destruct (JS.truthy v) eqn:Ht.
    + exists true. split; [reflexivity|]. split; [|reflexivity].
      intros _. exists x, v. split; [left | now split].
    + destruct IH as (b & Hb & Hiff); [intros y Hy; apply Hl; now right|].
      exists b. split; [exact Hb|]. rewrite Hiff. split.
      * intros (y & u & Hy & Hfy & Hu). exists y, u. split; [now right | now split].
      * intros (y & u & Hy & Hfy & Hu).
        apply elem_of_cons in Hy as [->|Hy]; [congruence|]. now exists y, u.
Qed.

(** For a request whose keys name no inherited member, [equalFields]
    returns, and returns [true] exactly when the request has a key and
    one entry covers it with non-empty strings. *)
Lemma equalFields_plain (cachedFields : list fields) (request : fields) :
  plainKeys request = true ->
  exists b, equalFields cachedFields request = Returned b /\
            (b = true <->
             keys request <> [] /\
             exists entry, entry ∈ cachedFields /\ coversTruthy entry request).
Proof.
  intros Hplain. unfold equalFields.
  destruct (some_returned (equalFields_entry request) cachedFields) as (b & Hb & Hiff).
  { intros entry _. destruct (equalFields_entry_plain request entry Hplain) as (v & Hv & _).
    eauto. }
  exists b. split; [exact Hb|]. rewrite Hiff. split.
  - intros (entry & v & Hin & Hv & Ht).
    destruct (equalFields_entry_plain request entry Hplain) as (v' & Hv' & Hiff').
    rewrite Hv in Hv'. injection Hv' as <-. apply Hiff' in Ht as [Hk Hc]. eauto.
  - intros (Hk & entry & Hin & Hc).
    destruct (equalFields_entry_plain request entry Hplain) as (v & Hv & Hiff').
    exists entry, v. repeat split; [exact Hin | exact Hv | now apply Hiff'].
Qed.

Lemma equalFields_covered (cachedFields : list fields) (request : fields) :
  plainKeys request = true -> keys request <> [] ->
  (exists entry, entry ∈ cachedFields /\ coversTruthy entry request) ->
  equalFields cachedFields request = Returned true.
Proof.
  intros Hplain Hk Hc.
  destruct (equalFields_plain cachedFields request Hplain) as (b & Hb & Hiff).
  rewrite Hb. f_equal. apply Hiff. now split.
Qed.

Lemma equalFields_uncovered (cachedFields : list fields) (request : fields) :
  plainKeys request = true ->
  ~ (keys request <> [] /\
     exists entry, entry ∈ cachedFields /\ coversTruthy entry request) ->
  equalFields cachedFields request = Returned false.
Proof.
  intros Hplain Hno.
  destruct (equalFields_plain cachedFields request Hplain) as (b & Hb & Hiff).
  rewrite Hb. f_equal. apply not_true_is_false. intros H. now apply Hno, Hiff.
Qed.

Lemma equalFields_no_keys (cachedFields : list fields) :
  equalFields cachedFields [] = Returned false.
Proof.
  unfold equalFields. induction cachedFields as [|entry h IH]; simpl; [reflexivity|].
  exact IH.
Qed.

Lemma equalFields_thrown (cachedFields : list fields) (request : fields) (e : exception) :
  equalFields cachedFields request = Thrown e -> plainKeys request = false.
Proof.
  intros H. destruct (plainKeys request) eqn:Hplain; [|reflexivity].
  destruct (equalFields_plain cachedFields request Hplain) as (b & Hb & _). congruence.
Qed.

Lemma equalFields_app (h added : list fields) (request : fields) :
  equalFields h request = Returned true ->
  equalFields (h ++ added) request = Returned true.
Proof.
  unfold equalFields. induction h as [|entry h IH]; simpl; [discriminate|].
  destruct (equalFields_entry request entry) as [v|e]; [|discriminate].
  destruct (JS.truthy v); [reflexivity | exact IH].
Qed.

(** ** captureFields *)

Lemma captureFields_unfold (rec : recordRef) (request : fields) (w : world) :
  captureFields rec request w =
  match equalFields (history w rec) request with
  | Returned true => (Returned false, w)
  | Returned false => (Returned true, withHistory w rec (history w rec ++ [request]))
  | Thrown e => (Thrown e, w)
  end.
Proof.
  unfold captureFields, bind, FieldsForRecord_get, FieldsForRecord_set, evaluate, ret,
    history, withHistory.
  destruct (FieldsForRecord w !! rec) as [[|entry entries]|]; simpl; try reflexivity.
  destruct (equalFields (entry :: entries) request) as [[|]|e]; reflexivity.
Qed.

Lemma history_withHistory (w : world) (rec : recordRef) (h : list fields) :
  history (withHistory w rec h) rec = h.
Proof. unfold history, withHistory. simpl. now rewrite lookup_insert_eq. Qed.

Lemma history_withHistory_ne (w : world) (rec rec' : recordRef) (h : list fields) :
  rec <> rec' -> history (withHistory w rec h) rec' = history w rec'.
Proof. intros H. unfold history, withHistory. simpl. now rewrite lookup_insert_ne. Qed.

Lemma shouldReloadRecord_unfold (this : adapter) (st : store) (s : snapshot) (w : world) :
  shouldReloadRecord this st s w =
  match (if supportsJSONAPIFields this then snapshotFields_of s else None) with
  | Some request => captureFields (record s) request w
  | None => (Returned false, w)
  end.
Proof.
  unfold shouldReloadRecord. destruct (supportsJSONAPIFields this); [|reflexivity].
  now destruct (snapshotFields_of s).
Qed.


Lemma coversTruthy_refl (request : fields) :
  noEmptyString request -> coversTruthy request request.
Proof.
  intros Hne key Hkey. destruct (get_keys _ _ Hkey) as [v Hv].
  exists v, v. repeat split; try exact Hv.
  - exact (Hne key v (get_elem_of _ _ _ Hv)).
  - intros x Hx. exact Hx.
Qed.

Lemma captureFields_hit (w : world) (rec : recordRef) (request : fields) :
  plainKeys request = true -> keys request <> [] ->
  (exists entry, entry ∈ history w rec /\ coversTruthy entry request) ->
  captureFields rec request w = (Returned false, w).
Proof.
  intros Hplain Hk Hc. rewrite captureFields_unfold.
  now rewrite (equalFields_covered _ _ Hplain Hk Hc).
Qed.

Lemma captureFields_miss (w : world) (rec : recordRef) (request : fields) :
  plainKeys request = true ->
  (forall entry, entry ∈ history w rec -> ~ coversTruthy entry request) ->
  captureFields rec request w =
    (Returned true, withHistory w rec (history w rec ++ [request])).
Proof.
  intros Hplain Hno. rewrite captureFields_unfold.
  rewrite (equalFields_uncovered _ _ Hplain); [reflexivity|].
  intros (_ & entry & Hin & Hc). exact (Hno entry Hin Hc).
Qed.

(** ** The field-tracking cache *)


(** Two inputs the amended C1 says nothing about.  A group cached as the
    empty string is falsy for [if (entry[key])], so the identical request
    is fetched again; a group key that names a member of
    [Object.prototype] makes an entry without that group answer with the
    member, and [hasSomeFields] throws. *)
Example captureFields_empty_string_ex :
  captureFields 1 [("comments", "")] (fetchedOnce [("comments", "")]) =
    (Returned true, withHistory emptyWorld 1 [[("comments", "")]; [("comments", "")]]).
Proof. vm_compute. reflexivity. Qed.

Example captureFields_inherited_key_ex :
  captureFields 1 [("constructor", "c")]
      (withHistory emptyWorld 1 [[("x", "1")]; [("a", "1"); ("constructor", "c")]]) =
    (Thrown TypeError,
     withHistory emptyWorld 1 [[("x", "1")]; [("a", "1"); ("constructor", "c")]]).
Proof. vm_compute. reflexivity. Qed.



(** C3 at a request the code can receive: the history of the record is
    [{comments: "author"}], the request is [{constructor: "a"}].  The
    requested field set of the group [constructor] is a subset of what no
    entry has cached for it, so the request is to be fetched and
    recorded; the code reads the inherited [constructor] of the entry,
    takes it for a cached string and throws a [TypeError], and the
    history stays as it was. *)
Theorem captureFields_larger_request_throws :
  history (fetchedOnce [("comments", "author")]) 1 <> [] /\
  (exists key requested,
     key ∈ keys [("constructor", "a")] /\
     get [("constructor", "a")] key = Some requested /\
     forall entry, entry ∈ history (fetchedOnce [("comments", "author")]) 1 ->
       ~ (fieldSet requested ⊆ cachedSet entry key)) /\
  captureFields 1 [("constructor", "a")] (fetchedOnce [("comments", "author")]) =
    (Thrown TypeError, fetchedOnce [("comments", "author")]).
Proof.
  split; [vm_compute; discriminate|]. split; [|vm_compute; reflexivity].
  exists "constructor", "a". split; [left|]. split; [reflexivity|].
  intros entry Hin. vm_compute in Hin. apply list_elem_of_singleton in Hin as ->.
  intros Hsub. specialize (Hsub "a"). vm_compute in Hsub.
  assert ("a" ∈ @nil string) as Hbad by (apply Hsub; left). inversion Hbad.
Qed.

(** C5: for a record with no [WeakMap] entry, or with an empty array,
    [captureFields] answers [true] and the request becomes the first and
    only entry of the record's history. *)
Theorem captureFields_first_entry (w : world) (rec : recordRef) (request : fields) :
  FieldsForRecord w !! rec = None \/ FieldsForRecord w !! rec = Some [] ->
  captureFields rec request w = (Returned true, withHistory w rec [request]) /\
  history (snd (captureFields rec request w)) rec = [request].
Proof.
  intros Hnone.
  assert (captureFields rec request w = (Returned true, withHistory w rec [request]))
    as Heq.
  { unfold captureFields, bind, FieldsForRecord_get.
    destruct Hnone as [-> | ->]; reflexivity. }
  split; [exact Heq|]. rewrite Heq. apply history_withHistory.
Qed.

Lemma captureFields_first_entry_witness :
  captureFields 1 [("comments", "author")] emptyWorld =
    (Returned true, fetchedOnce [("comments", "author")]) /\
  history (snd (captureFields 1 [("comments", "author")] emptyWorld)) 1 =
    [[("comments", "author")]].
Proof.
  apply (captureFields_first_entry emptyWorld 1 [("comments", "author")]).
  left. reflexivity.
Defined.

(** C10: a request with no group key is never covered: [equalFields]
    answers [false] for it whatever the history, and [captureFields]
    answers [true] and appends the empty mapping as a new entry, also
    behind earlier entries. *)
Theorem captureFields_empty_request (w : world) (rec : recordRef) :
  equalFields (history w rec) [] = Returned false /\
  captureFields rec [] w =
    (Returned true, withHistory w rec (history w rec ++ [[]])) /\
  history (snd (captureFields rec [] w)) rec = history w rec ++ [[]].
Proof.
  assert (captureFields rec [] w =
            (Returned true, withHistory w rec (history w rec ++ [[]]))) as Heq.
  { rewrite captureFields_unfold. now rewrite equalFields_no_keys. }
  split; [apply equalFields_no_keys|]. split; [exact Heq|].
  rewrite Heq. apply history_withHistory.
Qed.

Example empty_request_after_author_ex :
  captureFields 1 [] (fetchedOnce [("comments", "author")]) =
    (Returned true, withHistory emptyWorld 1 [[("comments", "author")]; []]).
Proof. vm_compute. reflexivity. Qed.

(** ** shouldReloadRecord *)

(** C4: an adapter with [supportsJSONAPIFields = false] answers [false]
    to [shouldReloadRecord] for every store, snapshot and history, and
    leaves the world as it was. *)
Theorem shouldReloadRecord_disabled (this : adapter) (st : store) (s : snapshot)
    (w : world) :
  supportsJSONAPIFields this = false ->
  shouldReloadRecord this st s w = (Returned false, w).
Proof. intros Hoff. unfold shouldReloadRecord. now rewrite Hoff. Qed.

Lemma shouldReloadRecord_disabled_witness :
  shouldReloadRecord (Adapter false false None None) Store
      (Snapshot 1 "1" (Some (AdapterOptions (Some [("comments", "author,body")]))))
      (fetchedOnce [("comments", "author")]) =
    (Returned false, fetchedOnce [("comments", "author")]).
Proof. apply shouldReloadRecord_disabled. reflexivity. Defined.

(** ** The history only grows *)

Lemma grows_refl (n : nat) (w : world) : grows n w w.
Proof. intros rec. exists []. split; [now rewrite app_nil_r | simpl; lia]. Qed.

Lemma grows_trans (n m : nat) (w1 w2 w3 : world) :
  grows n w1 w2 -> grows m w2 w3 -> grows (n + m) w1 w3.
Proof.
  intros H12 H23 rec.
  destruct (H12 rec) as (a & Ha & Hla). destruct (H23 rec) as (b & Hb & Hlb).
  exists (a ++ b). split.
  - now rewrite Hb, Ha, app_assoc.
  - rewrite length_app. lia.
Qed.

Lemma grows_same_map (n : nat) (w w' : world) :
  FieldsForRecord w' = FieldsForRecord w -> grows n w w'.
Proof.
  intros Heq rec. exists []. unfold history. rewrite Heq.
  split; [now rewrite app_nil_r | simpl; lia].
Qed.

Lemma captureFields_grows (rec : recordRef) (request : fields) (w : world) :
  grows 1 w (snd (captureFields rec request w)).
Proof.
  rewrite captureFields_unfold.
  destruct (equalFields _ _) as [[|]|e]; simpl; try apply grows_refl.
  intros rec'. destruct (decide (rec = rec')) as [<-|Hne].
  - exists [request]. rewrite history_withHistory. split; [reflexivity | simpl; lia].
  - exists []. rewrite history_withHistory_ne by exact Hne.
    split; [now rewrite app_nil_r | simpl; lia].
Qed.

Lemma shouldReloadRecord_grows (this : adapter) (st : store) (s : snapshot) (w : world) :
  grows 1 w (snd (shouldReloadRecord this st s w)).
Proof.
  rewrite shouldReloadRecord_unfold.
  destruct (if supportsJSONAPIFields this then snapshotFields_of s else None);
    [apply captureFields_grows | apply grows_refl].
Qed.

Section InheritedProperties.

Context {lib : Type}.
Variable dasherize : string -> lib -> string * lib.
Variable pluralize : string -> lib -> string * lib.
Variable super_findRecord : adapter -> modelClass -> string -> snapshot -> request.
Variable assembleURL :
  option string -> option string -> string -> list string -> list snapshot -> string -> string.

(** The cache after [findRecord] is the cache after the [captureFields]
    it starts with, if any. *)
Lemma findRecord_FieldsForRecord (this : adapter) (st : store) (ty : modelClass)
    (i : string) (s : snapshot) (w : world) :
  FieldsForRecord (snd (findRecord super_findRecord this st ty i s w)) =
  match snapshotFields_of s with
  | Some request =>
      if supportsJSONAPIFields this
      then FieldsForRecord (snd (captureFields (record s) request w))
      else FieldsForRecord w
  | None => FieldsForRecord w
  end.
Proof.
  unfold findRecord, bind.
  destruct (snapshotFields_of s) as [request|]; [|reflexivity].
  destruct (supportsJSONAPIFields this); [|reflexivity].
  now destruct (captureFields (record s) request w) as [[b|e] w'].
Qed.

Lemma findRecord_grows (this : adapter) (st : store) (ty : modelClass) (i : string)
    (s : snapshot) (w : world) :
  grows 1 w (snd (findRecord super_findRecord this st ty i s w)).
Proof.
  pose proof (findRecord_FieldsForRecord this st ty i s w) as Hmap.
  destruct (snapshotFields_of s) as [request|]; [|now apply grows_same_map].
  destruct (supportsJSONAPIFields this); [|now apply grows_same_map].
  intros rec. destruct (captureFields_grows (record s) request w rec) as (added & Ha & Hl).
  exists added. split; [|exact Hl]. unfold history in *. now rewrite Hmap.
Qed.

Lemma perform_grows (c : call) (w : world) :
  grows 1 w (snd (perform super_findRecord c w)).
Proof.
  destruct c as [rec request | this st s | this st ty i s]; unfold perform, bind.
  - pose proof (captureFields_grows rec request w) as Hg.
    now destruct (captureFields rec request w) as [[b|e] w'].
  - pose proof (shouldReloadRecord_grows this st s w) as Hg.
    now destruct (shouldReloadRecord this st s w) as [[b|e] w'].
  - pose proof (findRecord_grows this st ty i s w) as Hg.
    now destruct (findRecord super_findRecord this st ty i s w) as [[b|e] w'].
Qed.

Lemma performAll_grows (cs : list call) (w : world) :
  grows (length cs) w (snd (performAll super_findRecord cs w)).
Proof.
  revert w. induction cs as [|c cs IH]; intros w; simpl; [apply grows_refl|].
  change (S (length cs)) with (1 + length cs).
  exact (grows_trans _ _ _ _ _ (perform_grows c w) (IH _)).
Qed.

(** C6: the history of a record never shrinks.  Every call that reaches
    the cache -- [captureFields] itself, [shouldReloadRecord] or
    [findRecord] -- leaves each previously recorded entry of every record
    in place and in order and appends at most one entry; hence after any
    sequence of such calls the old history is a prefix of the new one,
    longer by at most the number of calls. *)
Theorem history_never_shrinks :
  (forall (c : call) (w : world), grows 1 w (snd (perform super_findRecord c w))) /\
  (forall (cs : list call) (w : world),
     grows (length cs) w (snd (performAll super_findRecord cs w))).
Proof.
  split; [exact perform_grows|].
  induction cs as [|c cs IH]; intros w; simpl.
  - apply grows_refl.
  - change (S (length cs)) with (1 + length cs).
    exact (grows_trans _ _ _ _ _ (perform_grows c w) (IH _)).
Qed.

(** ** findMany *)

Lemma split_no_separator (sep : ascii) (s : string) :
  hasChar sep s = false -> JS.split sep s = [s].
Proof.
  induction s as [|c s IH]; simpl; [reflexivity|].
  intros H. apply orb_false_elim in H as [Hc Hs].
  rewrite Hc, (IH Hs). reflexivity.
Qed.

Lemma split_append_separator (sep : ascii) (s rest : string) :
  hasChar sep s = false ->
  JS.split sep (s ++ String sep rest)%string = s :: JS.split sep rest.
Proof.
  induction s as [|c s IH]; simpl.
  - intros _. now rewrite Ascii.eqb_refl.
  - intros H. apply orb_false_elim in H as [Hc Hs].
    rewrite Hc, (IH Hs). reflexivity.
Qed.

Lemma split_join (sep : ascii) (ids : list string) :
  ids <> [] -> Forall (fun i => hasChar sep i = false) ids ->
  JS.split sep (JS.join (String sep EmptyString) ids) = ids.
Proof.
  induction ids as [|i ids IH]; [congruence|].
  intros _ Hall. apply Forall_cons in Hall as [Hi Hall].
  destruct ids as [|j ids].
  - simpl. now apply split_no_separator.
  - change (JS.join (String sep EmptyString) (i :: j :: ids))
      with (i ++ String sep (JS.join (String sep EmptyString) (j :: ids)))%string.
    rewrite split_append_separator by exact Hi.
    f_equal. apply IH; [discriminate | exact Hall].
Qed.


Lemma buildURL_unfold (this : adapter) (name : string) (ids : list string)
    (snapshots : list snapshot) (requestType : string) (w : world) (l : lib) :
  buildURL dasherize pluralize assembleURL this name ids snapshots requestType (w, l) =
    (Returned
       (assembleURL (host this) (namespace this)
          (fst (pluralize (fst (dasherize name l)) (snd (dasherize name l))))
          ids snapshots requestType),
     (w, snd (pluralize (fst (dasherize name l)) (snd (dasherize name l))))).
Proof. reflexivity. Qed.

(** C8: [findMany] hands exactly one request to [this.ajax]: a GET whose
    URL is what [buildURL] answers for the model name, the ids and the
    request type [findMany], and whose data is [{filter: {id: s}}] with
    [s] the ids joined by commas in the order given, so that ids [1, 2]
    give [1,2]; for a non-empty list of ids free of commas, splitting [s]
    at the commas gives the ids back. *)
Theorem findMany_one_request (this : adapter) (st : store) (ty : modelClass)
    (ids : list string) (snapshots : list snapshot) (w : world) (l : lib) :
  (exists url l',
     let data :=
       JObj [("data", JObj [("filter", JObj [("id", JStr (JS.join "," ids))])])] in
     buildURL dasherize pluralize assembleURL this (modelName ty) ids snapshots
       "findMany" (w, l) = (Returned url, (w, l')) /\
     findMany dasherize pluralize assembleURL this st ty ids snapshots (w, l) =
       (Returned (length (ajaxCalls w)),
        (withRequest w (Request url "GET" data), l')) /\
     ajaxCalls
       (fst (snd (findMany dasherize pluralize assembleURL this st ty ids snapshots
                    (w, l)))) =
       ajaxCalls w ++ [Request url "GET" data]) /\
  JS.join "," ["1"; "2"] = "1,2" /\
  (ids <> [] -> Forall (fun i => hasChar "," i = false) ids ->
   JS.split "," (JS.join "," ids) = ids).
Proof.
  split; [|split; [reflexivity | apply split_join]].
  eexists. eexists. cbv zeta. split; [apply buildURL_unfold|].
  split; reflexivity.
Qed.

(** ** pathForType *)


End InheritedProperties.

Lemma findMany_one_request_witness :
  findMany (fun s (l : nat) => (s, S l)) (fun s l => ((s ++ "s")%string, S l))
      (fun _ _ path _ _ _ => ("/" ++ path)%string)
      (Adapter false true None None) Store (ModelClass "comment") ["1"; "2"] []
      (emptyWorld, 0) =
    (Returned 0,
     (withRequest emptyWorld
        (Request "/comments" "GET"
           (JObj [("data", JObj [("filter", JObj [("id", JStr "1,2")])])])), 2)) /\
  JS.split "," (JS.join "," ["1"; "2"]) = ["1"; "2"].
Proof.
  destruct (findMany_one_request (fun s (l : nat) => (s, S l))
              (fun s l => ((s ++ "s")%string, S l))
              (fun _ _ path _ _ _ => ("/" ++ path)%string)
              (Adapter false true None None) Store (ModelClass "comment")
              ["1"; "2"] [] emptyWorld 0) as ((url & l' & Hb & Hf & _) & _ & H4).
  split.
  - rewrite Hf. injection Hb as <- <-. reflexivity.
  - apply H4; [discriminate|]. repeat constructor.
Defined.


(** ** The response classifier *)

Section ClassifierProperties.

Variable detailOfBody : Z -> json -> string.
Variable detailOfFailure : string -> string.
Variable failureStatus : Z.

(** C7: the classifier answers by status code, and the three cases
    exclude each other and leave no status out: 200-299 or 304 is
    [Success] with the body as received; 422 is [Invalid] with the
    [errors] key of the body and nothing else of it, so two bodies with
    the same [errors] classify alike; every other status is
    [AdapterError] with that status and a detail message, and so is a
    transport failure. *)
Theorem classify_by_status (status : Z) (body : json) (reason : string) :
  ((200 <= status <= 299 \/ status = 304)%Z ->
     classify detailOfBody detailOfFailure failureStatus (Responded status body) =
       Success body) /\
  (status = 422%Z ->
     classify detailOfBody detailOfFailure failureStatus (Responded status body) =
       Invalid (bodyKey "errors" body)) /\
  (~ (200 <= status <= 299)%Z -> status <> 304%Z -> status <> 422%Z ->
     classify detailOfBody detailOfFailure failureStatus (Responded status body) =
       AdapterError status (detailOfBody status body)) /\
  classify detailOfBody detailOfFailure failureStatus (TransportFailed reason) =
    AdapterError failureStatus (detailOfFailure reason) /\
  (forall body', bodyKey "errors" body = bodyKey "errors" body' ->
     classify detailOfBody detailOfFailure failureStatus (Responded 422 body) =
     classify detailOfBody detailOfFailure failureStatus (Responded 422 body')).
Proof.
  repeat split.
  - intros H. unfold classify.
    destruct ((200 <=? status)%Z && (status <=? 299)%Z || (status =? 304)%Z) eqn:E;
      [reflexivity|]. lia.
  - intros ->. reflexivity.
  - intros H1 H2 H3. unfold classify.
    destruct ((200 <=? status)%Z && (status <=? 299)%Z || (status =? 304)%Z) eqn:E;
      [lia|].
    destruct (status =? 422)%Z eqn:E'; [lia | reflexivity].
  - intros body' H. simpl. now rewrite H.
Qed.

End ClassifierProperties.

Lemma classify_by_status_witness :
  classify (fun _ _ => "Internal Server Error") (fun reason => reason) 0
      (Responded 200 (JObj [("data", JObj [("id", JStr "1")])])) =
    Success (JObj [("data", JObj [("id", JStr "1")])]) /\
  classify (fun _ _ => "Internal Server Error") (fun reason => reason) 0
      (Responded 422
         (JObj [("errors", JArr [JStr "name is taken"]); ("data", JObj [])])) =
    Invalid (Some (JArr [JStr "name is taken"])) /\
  classify (fun _ _ => "Internal Server Error") (fun reason => reason) 0
      (Responded 500 JNull) =
    AdapterError 500 "Internal Server Error".
Proof.
  split; [|split].
  - apply (classify_by_status (fun _ _ => "Internal Server Error") (fun reason => reason)
             0 200 (JObj [("data", JObj [("id", JStr "1")])]) ""). lia.
  - apply (classify_by_status (fun _ _ => "Internal Server Error") (fun reason => reason)
             0 422 (JObj [("errors", JArr [JStr "name is taken"]); ("data", JObj [])]) "").
    reflexivity.
  - apply (classify_by_status (fun _ _ => "Internal Server Error") (fun reason => reason)
             0 500 JNull ""); lia.
Defined.

(** * Further properties *)

(** ** Field strings *)

Lemma split_app_separator (sep : ascii) (a b : string) :
  JS.split sep (a ++ String sep b)%string = JS.split sep a ++ JS.split sep b.
Proof.
  induction a as [|c a IH]; simpl.
  - now rewrite Ascii.eqb_refl.
  - destruct (Ascii.eqb c sep); [now rewrite IH|].
    rewrite IH. pose proof (split_nonempty sep a) as Hne.
    destruct (JS.split sep a); [congruence | reflexivity].
Qed.

Lemma fieldSet_comma (a b : string) :
  fieldSet (a ++ "," ++ b)%string = fieldSet a ++ fieldSet b.
Proof.
  unfold fieldSet. change ("," ++ b)%string with (String "," b).
  now rewrite split_app_separator, map_app.
Qed.

Lemma whiteSpace_not_comma (c : ascii) :
  JS.isWhiteSpace c = true -> Ascii.eqb c "," = false.
Proof.
  intros H. destruct (Ascii.eqb_spec c ",") as [->|_]; [|reflexivity].
  vm_compute in H. discriminate.
Qed.

Lemma allWhiteSpace_no_comma (p : string) :
  allWhiteSpace p = true -> hasChar "," p = false.
Proof.
  induction p as [|c p IH]; simpl; [reflexivity|].
  intros H. apply andb_prop in H as [Hc Hp].
  now rewrite (whiteSpace_not_comma c Hc), (IH Hp).
Qed.

Lemma allWhiteSpace_app (p q : string) :
  allWhiteSpace (p ++ q)%string = allWhiteSpace p && allWhiteSpace q.
Proof.
  induction p as [|c p IH]; simpl; [reflexivity|]. now rewrite IH, andb_assoc.
Qed.

Lemma trimStart_allWhiteSpace (p : string) :
  allWhiteSpace p = true -> JS.trimStart p = "".
Proof.
  induction p as [|c p IH]; simpl; [reflexivity|].
  intros H. apply andb_prop in H as [Hc Hp]. now rewrite Hc, (IH Hp).
Qed.

Lemma trimEnd_allWhiteSpace (p : string) :
  allWhiteSpace p = true -> JS.trimEnd p = "".
Proof.
  induction p as [|c p IH]; simpl; [reflexivity|].
  intros H. apply andb_prop in H as [Hc Hp]. now rewrite (IH Hp), Hc.
Qed.

Lemma trimStart_app (s p : string) :
  JS.trimStart (s ++ p)%string =
  if allWhiteSpace s then JS.trimStart p else (JS.trimStart s ++ p)%string.
Proof.
  induction s as [|c s IH]; simpl; [reflexivity|].
  destruct (JS.isWhiteSpace c); simpl; [exact IH | reflexivity].
Qed.

Lemma trimEnd_app_whiteSpace (s p : string) :
  allWhiteSpace p = true -> JS.trimEnd (s ++ p)%string = JS.trimEnd s.
Proof.
  intros Hp. induction s as [|c s IH]; simpl.
  - now apply trimEnd_allWhiteSpace.
  - now rewrite IH.
Qed.

Lemma trim_app_whiteSpace (s p : string) :
  allWhiteSpace p = true -> JS.trim (s ++ p)%string = JS.trim s.
Proof.
  intros Hp. unfold JS.trim. rewrite trimStart_app.
  destruct (allWhiteSpace s) eqn:Hs.
  - now rewrite (trimStart_allWhiteSpace p Hp), (trimStart_allWhiteSpace s Hs).
  - now apply trimEnd_app_whiteSpace.
Qed.

Lemma trim_whiteSpace_app (p s : string) :
  allWhiteSpace p = true -> JS.trim (p ++ s)%string = JS.trim s.
Proof.
  intros Hp. unfold JS.trim. rewrite trimStart_app, Hp. reflexivity.
Qed.

Lemma fieldSet_whiteSpace_app (p s : string) :
  allWhiteSpace p = true -> fieldSet (p ++ s)%string = fieldSet s.
Proof.
  induction p as [|c p IH]; simpl; [reflexivity|].
  intros H. apply andb_prop in H as [Hc Hp]. specialize (IH Hp).
  unfold fieldSet in *. simpl. rewrite (whiteSpace_not_comma c Hc).
  pose proof (split_nonempty "," (p ++ s)%string) as Hne.
  destruct (JS.split "," (p ++ s)%string) as [|h t]; [congruence|].
  rewrite <- IH. simpl. f_equal.
  apply (trim_whiteSpace_app (String c "") h). simpl. now rewrite Hc.
Qed.

Lemma split_app_whiteSpace (s p : string) :
  allWhiteSpace p = true ->
  Forall2 (fun x y => x = (y ++ p)%string \/ x = y)
          (JS.split "," (s ++ p)%string) (JS.split "," s).
Proof.
  intros Hp. induction s as [|c s IH].
  - change (JS.split "," ("" ++ p)%string) with (JS.split "," p).
    rewrite (split_no_separator "," p (allWhiteSpace_no_comma p Hp)).
    constructor; [now left | constructor].
  - change (String c s ++ p)%string with (String c (s ++ p)%string).
    cbn [JS.split]. destruct (Ascii.eqb c ",").
    + constructor; [now right | exact IH].
    + pose proof (split_nonempty "," s) as Hne.
      destruct IH as [|x y l l' Hxy Hrest]; [congruence|].
      constructor; [|exact Hrest].
      destruct Hxy as [->| ->]; [now left | now right].
Qed.

Lemma fieldSet_app_whiteSpace (s p : string) :
  allWhiteSpace p = true -> fieldSet (s ++ p)%string = fieldSet s.
Proof.
  intros Hp. unfold fieldSet.
  pose proof (split_app_whiteSpace s p Hp) as H.
  induction H as [|x y l l' Hxy _ IH]; simpl; [reflexivity|].
  rewrite IH. f_equal.
  destruct Hxy as [->| ->]; [now apply trim_app_whiteSpace | reflexivity].
Qed.

Lemma append_assoc (a b c : string) :
  ((a ++ b) ++ c)%string = (a ++ b ++ c)%string.
Proof.
  induction a as [|x a IH]; [reflexivity|].
  change (String x ((a ++ b) ++ c)%string = String x (a ++ b ++ c)%string).
  now rewrite IH.
Qed.

Lemma subseteq_app_iff (l1 l2 l : list string) :
  l1 ++ l2 ⊆ l <-> l1 ⊆ l /\ l2 ⊆ l.
Proof.
  split.
  - intros H. split; intros x Hx; apply H, elem_of_app; [now left | now right].
  - intros [H1 H2] x Hx. apply elem_of_app in Hx as [Hx|Hx]; [now apply H1 | now apply H2].
Qed.

Lemma subseteq_same_elements (l k k' : list string) :
  (forall x, x ∈ k <-> x ∈ k') -> l ⊆ k <-> l ⊆ k'.
Proof.
  intros H. split; intros Hl x Hx; apply H, Hl, Hx.
Qed.

(** ** hasSomeFields as an order on field strings *)

(** X1: [hasSomeFields] is reflexive and transitive: a string covers
    itself, and what covers a covering string covers what that one
    covers. *)
Theorem hasSomeFields_preorder (a b c : string) :
  hasSomeFields a a = true /\
  (hasSomeFields a b = true -> hasSomeFields b c = true ->
   hasSomeFields a c = true).
Proof.
  split.
  - apply hasSomeFields_subset. intros x Hx. exact Hx.
  - rewrite !hasSomeFields_subset. intros Hba Hcb x Hx. apply Hba, Hcb, Hx.
Qed.

Lemma hasSomeFields_preorder_witness :
  hasSomeFields "title, body ,author" "author" = true.
Proof.
  destruct (hasSomeFields_preorder "title, body ,author" "author,title" "author")
    as [_ Htrans].
  apply Htrans; reflexivity.
Defined.

(** X2: joining two field strings with a comma joins their field sets.
    The order of the cached fields and repeating them do not matter; a
    cached string keeps covering what it covered when more fields are
    joined to it; a joined request is covered exactly when both parts
    are. *)
Theorem hasSomeFields_comma (a b c s : string) :
  hasSomeFields (a ++ "," ++ b)%string s = hasSomeFields (b ++ "," ++ a)%string s /\
  hasSomeFields (a ++ "," ++ a)%string s = hasSomeFields a s /\
  hasSomeFields c (a ++ "," ++ b)%string = hasSomeFields c a && hasSomeFields c b /\
  (hasSomeFields a s = true -> hasSomeFields (a ++ "," ++ b)%string s = true).
Proof.
  repeat split.
  - apply eq_true_iff_eq. rewrite !hasSomeFields_subset, !fieldSet_comma.
    apply subseteq_same_elements. intros x. rewrite !elem_of_app. tauto.
  - apply eq_true_iff_eq. rewrite !hasSomeFields_subset, !fieldSet_comma.
    apply subseteq_same_elements. intros x. rewrite !elem_of_app. tauto.
  - apply eq_true_iff_eq.
    rewrite andb_true_iff, !hasSomeFields_subset, !fieldSet_comma.
    apply subseteq_app_iff.
  - rewrite !hasSomeFields_subset, !fieldSet_comma.
    intros H x Hx. apply elem_of_app. left. exact (H x Hx).
Qed.

Lemma hasSomeFields_comma_witness :
  hasSomeFields ("author" ++ "," ++ "body")%string "author" = true.
Proof.
  destruct (hasSomeFields_comma "author" "body" "" "author") as (_ & _ & _ & Hmore).
  apply Hmore. reflexivity.
Defined.

(** X3: white space at either end of a field string and on either side
    of a comma is ignored, in the cached string and in the requested
    one. *)
Theorem hasSomeFields_whiteSpace (p q a b c s : string) :
  allWhiteSpace p = true -> allWhiteSpace q = true ->
  hasSomeFields (p ++ a ++ q)%string s = hasSomeFields a s /\
  hasSomeFields c (p ++ s ++ q)%string = hasSomeFields c s /\
  hasSomeFields (a ++ p ++ "," ++ q ++ b)%string s =
    hasSomeFields (a ++ "," ++ b)%string s /\
  hasSomeFields c (a ++ p ++ "," ++ q ++ b)%string =
    hasSomeFields c (a ++ "," ++ b)%string.
Proof.
  intros Hp Hq.
  assert (forall x, fieldSet (p ++ x ++ q)%string = fieldSet x) as Hends.
  { intros x. rewrite (fieldSet_whiteSpace_app p _ Hp).
    now apply fieldSet_app_whiteSpace. }
  assert (fieldSet (a ++ p ++ "," ++ q ++ b)%string = fieldSet (a ++ "," ++ b)%string)
    as Hcomma.
  { replace (a ++ p ++ "," ++ q ++ b)%string with ((a ++ p) ++ "," ++ (q ++ b))%string.
    - rewrite !fieldSet_comma, (fieldSet_app_whiteSpace a p Hp),
        (fieldSet_whiteSpace_app q b Hq). reflexivity.
    - now rewrite append_assoc. }
  repeat split; apply eq_true_iff_eq; rewrite !hasSomeFields_subset.
  - now rewrite Hends.
  - now rewrite Hends.
  - now rewrite Hcomma.
  - now rewrite Hcomma.
Qed.

Lemma hasSomeFields_whiteSpace_witness :
  hasSomeFields ("author" ++ " " ++ "," ++ "  " ++ "body")%string "body , author" =
  hasSomeFields ("author" ++ "," ++ "body")%string "body , author".
Proof.
  destruct (hasSomeFields_whiteSpace " " "  " "author" "body" "" "body , author")
    as (_ & _ & Hcomma & _); [reflexivity | reflexivity | exact Hcomma].
Defined.

(** X4: an empty requested string is one empty field name, not an empty
    set: it is covered only by a cached string that has an empty field
    itself, and a requested string that ends in a comma is covered only
    if, besides its fields, the empty field is. *)
Theorem hasSomeFields_empty_field (c s : string) :
  (hasSomeFields c "" = true <-> "" ∈ fieldSet c) /\
  hasSomeFields c (s ++ ",")%string = hasSomeFields c s && hasSomeFields c "" /\
  hasSomeFields "author" "" = false /\
  hasSomeFields "author," "" = true.
Proof.
  split; [|split; [|split; reflexivity]].
  - rewrite hasSomeFields_subset. change (fieldSet "") with [""]. split.
    + intros H. apply H. left.
    + intros H x Hx. apply list_elem_of_singleton in Hx as ->. exact H.
  - apply eq_true_iff_eq.
    rewrite andb_true_iff, !hasSomeFields_subset.
    replace (s ++ ",")%string with (s ++ "," ++ "")%string by reflexivity.
    rewrite fieldSet_comma. apply subseteq_app_iff.
Qed.

(** ** Coverage by the history *)

Lemma elem_of_keys (obj : fields) (key value : string) :
  (key, value) ∈ obj -> key ∈ keys obj.
Proof.
  induction obj as [|[k v] obj IH]; intros H; [inversion H|].
  apply elem_of_cons in H as [[= -> ->]|H]; [left | right; exact (IH H)].
Qed.

Lemma get_Some_keys (obj : fields) (key value : string) :
  get obj key = Some value -> key ∈ keys obj.
Proof. intros H. exact (elem_of_keys _ _ _ (get_elem_of _ _ _ H)). Qed.

Lemma coversTruthy_trans (a b c : fields) :
  coversTruthy a b -> coversTruthy b c -> coversTruthy a c.
Proof.
  intros Hab Hbc key Hkey.
  destruct (Hbc key Hkey) as (cb & rc & Hb & Hne & Hc & Hsub).
  destruct (Hab key (get_Some_keys _ _ _ Hb)) as (ca & rb & Ha & Hnea & Hb' & Hsub').
  rewrite Hb in Hb'. injection Hb' as <-.
  exists ca, rc. repeat split; try assumption.
  intros x Hx. apply Hsub', Hsub, Hx.
Qed.

Lemma coversTruthy_plainKeys (first later : fields) :
  plainKeys first = true -> coversTruthy first later -> plainKeys later = true.
Proof.
  intros Hplain Hc. unfold plainKeys. apply forallb_forall. intros key Hkey.
  apply list_elem_of_In in Hkey. destruct (Hc key Hkey) as (c & _ & Hget & _).
  apply negb_true_iff. exact (plainKeys_inherited _ _ Hplain (get_Some_keys _ _ _ Hget)).
Qed.

Lemma captureFields_covering_entry (w : world) (rec : recordRef) (request : fields) :
  plainKeys request = true -> keys request <> [] -> noEmptyString request ->
  exists entry,
    entry ∈ history (snd (captureFields rec request w)) rec /\
    coversTruthy entry request.
Proof.
  intros Hplain Hk Hne. rewrite captureFields_unfold.
  destruct (equalFields_plain (history w rec) request Hplain) as (b & -> & Hiff).
  destruct b; simpl.
  - destruct Hiff as [Hiff _]. destruct (Hiff eq_refl) as (_ & entry & Hin & Hc). eauto.
  - exists request. rewrite history_withHistory. split.
    + apply elem_of_app. right. left.
    + now apply coversTruthy_refl.
Qed.

(** X5: for a request none of whose group keys names a member of
    [Object.prototype], [captureFields] returns, and it answers [false]
    exactly when the request has at least one group key and one single
    history entry of the record holds, for every group key of the
    request, a non-empty cached string whose field set includes the
    requested one.  Groups cached by different entries never add up. *)
Theorem captureFields_skips_iff (w : world) (rec : recordRef) (request : fields) :
  (plainKeys request = true ->
   (exists b, fst (captureFields rec request w) = Returned b) /\
   (fst (captureFields rec request w) = Returned false <->
      keys request <> [] /\
      exists entry, entry ∈ history w rec /\ coversTruthy entry request)) /\
  captureFields 1 [("comments", "author"); ("posts", "title")]
      (withHistory emptyWorld 1 [[("comments", "author")]; [("posts", "title")]]) =
    (Returned true,
     withHistory emptyWorld 1
       [[("comments", "author")]; [("posts", "title")];
        [("comments", "author"); ("posts", "title")]]).
Proof.
  split; [|vm_compute; reflexivity].
  intros Hplain. rewrite captureFields_unfold.
  destruct (equalFields_plain (history w rec) request Hplain) as (b & -> & Hiff).
  rewrite <- Hiff. destruct b; simpl; split; eauto; split; congruence.
Qed.

Lemma captureFields_skips_iff_witness :
  fst (captureFields 1 [("comments", "body")]
         (withHistory emptyWorld 1 [[("posts", "title")]; [("comments", "author,body")]])) =
    Returned false.
Proof.
  destruct (captureFields_skips_iff
              (withHistory emptyWorld 1 [[("posts", "title")]; [("comments", "author,body")]])
              1 [("comments", "body")]) as [H _].
  destruct H as [_ Hiff]; [reflexivity|].
  apply Hiff. split; [discriminate|].
  exists [("comments", "author,body")]. split; [vm_compute; right; left|].
  intros key Hkey. apply list_elem_of_singleton in Hkey as ->.
  exists "author,body", "body". repeat split; [discriminate|].
  intros x Hx. vm_compute in Hx. apply list_elem_of_singleton in Hx as ->.
  vm_compute. right. left.
Defined.

(** X6: what a call of [captureFields] changes.  When it answers
    [false] or throws, the world is as before; when it answers [true] the
    request is the new last entry of the record's history.  In each case
    the record has a non-empty history afterwards, and the histories of
    all other records, the requests sent and the deprecations raised are
    as before. *)
Theorem captureFields_effect (w : world) (rec : recordRef) (request : fields) :
  (fst (captureFields rec request w) = Returned false ->
     snd (captureFields rec request w) = w) /\
  (fst (captureFields rec request w) = Returned true ->
     history (snd (captureFields rec request w)) rec = history w rec ++ [request]) /\
  (forall e, fst (captureFields rec request w) = Thrown e ->
     snd (captureFields rec request w) = w) /\
  history (snd (captureFields rec request w)) rec <> [] /\
  (forall rec', rec' <> rec ->
     FieldsForRecord (snd (captureFields rec request w)) !! rec' =
     FieldsForRecord w !! rec') /\
  ajaxCalls (snd (captureFields rec request w)) = ajaxCalls w /\
  deprecations (snd (captureFields rec request w)) = deprecations w.
Proof.
  rewrite captureFields_unfold.
  destruct (equalFields (history w rec) request) as [[|]|e] eqn:E; simpl.
  - repeat split; try congruence.
    intros Hnil. rewrite Hnil in E. discriminate.
  - repeat split; try congruence.
    + intros _. apply history_withHistory.
    + rewrite history_withHistory. intros H. now apply app_eq_nil in H as [_ H].
    + intros rec' Hne. apply lookup_insert_ne. congruence.
  - repeat split; try congruence.
    intros Hnil. rewrite Hnil in E. discriminate.
Qed.

Lemma captureFields_effect_witness :
  history (snd (captureFields 1 [("comments", "body")]
                  (fetchedOnce [("comments", "author")]))) 1 =
    [[("comments", "author")]; [("comments", "body")]] /\
  snd (captureFields 1 [("comments", "author")] (fetchedOnce [("comments", "author")])) =
    fetchedOnce [("comments", "author")] /\
  snd (captureFields 1 [("constructor", "a")] (fetchedOnce [("comments", "author")])) =
    fetchedOnce [("comments", "author")] /\
  FieldsForRecord (snd (captureFields 1 [("comments", "body")]
                          (fetchedOnce [("comments", "author")]))) !! 2%positive =
    None.
Proof.
  destruct (captureFields_effect (fetchedOnce [("comments", "author")]) 1
              [("comments", "body")]) as (_ & H2 & _ & _ & H4 & _).
  destruct (captureFields_effect (fetchedOnce [("comments", "author")]) 1
              [("comments", "author")]) as (H1 & _).
  destruct (captureFields_effect (fetchedOnce [("comments", "author")]) 1
              [("constructor", "a")]) as (_ & _ & H3 & _).
  split; [apply H2; reflexivity|]. split; [apply H1; reflexivity|].
  split; [apply (H3 TypeError); reflexivity|].
  rewrite H4 by discriminate. reflexivity.
Defined.

(** X7: once a request with at least one group key, none of them the
    name of a member of [Object.prototype], and no empty field string has
    been through [captureFields], whether recorded or skipped, every
    later request for the same record that it covers -- at least one
    group key, each group requested with a subset of the fields of the
    earlier request -- is answered [false] and changes nothing.  In
    particular the same request repeated is skipped. *)
Theorem captureFields_then_covered (w : world) (rec : recordRef)
    (first later : fields) :
  keys first <> [] -> plainKeys first = true -> noEmptyString first ->
  (keys later <> [] -> coversTruthy first later ->
   captureFields rec later (snd (captureFields rec first w)) =
     (Returned false, snd (captureFields rec first w))) /\
  captureFields rec first (snd (captureFields rec first w)) =
    (Returned false, snd (captureFields rec first w)).
Proof.
  intros Hk Hplain Hne.
  destruct (captureFields_covering_entry w rec first Hplain Hk Hne)
    as (entry & Hin & Hc).
  split.
  - intros Hk' Hc'.
    apply captureFields_hit;
      [exact (coversTruthy_plainKeys _ _ Hplain Hc') | exact Hk'|].
    exists entry. split; [exact Hin | exact (coversTruthy_trans _ _ _ Hc Hc')].
  - apply captureFields_hit; [exact Hplain | exact Hk|]. eauto.
Qed.

Lemma captureFields_then_covered_witness :
  captureFields 1 [("comments", "author")]
      (snd (captureFields 1 [("comments", "author,body"); ("posts", "title")] emptyWorld)) =
    (Returned false,
     snd (captureFields 1 [("comments", "author,body"); ("posts", "title")] emptyWorld)).
Proof.
  destruct (captureFields_then_covered emptyWorld 1
              [("comments", "author,body"); ("posts", "title")] [("comments", "author")])
    as [H _].
  - discriminate.
  - reflexivity.
  - intros key value Hin.
    apply elem_of_cons in Hin as [[= _ ->]|Hin]; [discriminate|].
    apply list_elem_of_singleton in Hin as [= _ ->]. discriminate.
  - apply H; [discriminate|].
    intros key Hkey. apply list_elem_of_singleton in Hkey as ->.
    exists "author,body", "author". repeat split; [discriminate|].
    intros x Hx. vm_compute in Hx. apply list_elem_of_singleton in Hx as ->.
    vm_compute. left.
Defined.

(** X18: for a record with a non-empty history and a request none of
    whose group keys names a member of [Object.prototype], if for some
    group key of the request the requested field set is not a subset of
    the set any history entry has cached for that key, [captureFields]
    answers [true] and appends the request to the history as a new
    entry. *)
Theorem larger_request_is_fetched (w : world) (rec : recordRef) (request : fields) :
  history w rec <> [] -> plainKeys request = true ->
  (exists key requested,
     key ∈ keys request /\ get request key = Some requested /\
     forall entry, entry ∈ history w rec ->
       ~ (fieldSet requested ⊆ cachedSet entry key)) ->
  captureFields rec request w =
    (Returned true, withHistory w rec (history w rec ++ [request])) /\
  history (snd (captureFields rec request w)) rec = history w rec ++ [request].
Proof.
  intros _ Hplain (key & requested & Hkey & Hget & Hlarger).
  assert (captureFields rec request w =
            (Returned true, withHistory w rec (history w rec ++ [request]))) as Heq.
  { apply captureFields_miss; [exact Hplain|]. intros entry Hin Hc.
    destruct (Hc key Hkey) as (cached & requested' & He & _ & Hr & Hsub).
    apply (Hlarger entry Hin). unfold cachedSet. rewrite He.
    rewrite Hget in Hr. injection Hr as <-. exact Hsub. }
  split; [exact Heq|]. rewrite Heq. apply history_withHistory.
Qed.

Lemma larger_request_is_fetched_witness :
  captureFields 1 [("comments", "author,body")] (fetchedOnce [("comments", "author")]) =
    (Returned true,
     withHistory (fetchedOnce [("comments", "author")]) 1
       [[("comments", "author")]; [("comments", "author,body")]]).
Proof.
  apply (larger_request_is_fetched (fetchedOnce [("comments", "author")]) 1
           [("comments", "author,body")]).
  - vm_compute. discriminate.
  - reflexivity.
  - exists "comments", "author,body". split; [left|]. split; [reflexivity|].
    intros entry Hin. vm_compute in Hin. apply list_elem_of_singleton in Hin as ->.
    intros Hsub. specialize (Hsub "body"). vm_compute in Hsub.
    assert ("body" ∈ ["author"]) as Hbad by (apply Hsub; right; left).
    apply list_elem_of_singleton in Hbad. discriminate.
Defined.

(** X19: when [captureFields] throws.  It throws only for a request with
    a group key that names a member of [Object.prototype], only on a
    non-empty history, and leaves the world as it was.  It does throw a
    [TypeError] when the first group key of the request names such a
    member and the first history entry has no group of that name. *)
Theorem captureFields_throws (w : world) (rec : recordRef) (request : fields) :
  (forall e, fst (captureFields rec request w) = Thrown e ->
     plainKeys request = false /\ history w rec <> [] /\
     captureFields rec request w = (Thrown TypeError, w)) /\
  (forall entry entries key requested more,
     history w rec = entry :: entries -> request = (key, requested) :: more ->
     inherited key = true -> get entry key = None ->
     captureFields rec request w = (Thrown TypeError, w)).
Proof.
  split.
  - intros e. rewrite captureFields_unfold.
    destruct (equalFields (history w rec) request) as [[|]|e'] eqn:E; simpl;
      try discriminate.
    intros _. split; [exact (equalFields_thrown _ _ _ E)|]. split.
    + intros Hnil. rewrite Hnil in E. discriminate.
    + now destruct e'.
  - intros entry entries key requested more Hh -> Hin Hnone.
    rewrite captureFields_unfold, Hh. unfold equalFields. simpl.
    unfold equalFields_entry. simpl.
    now rewrite (equalFields_step_inherited entry _ key Hnone Hin).
Qed.

Lemma captureFields_throws_witness :
  captureFields 1 [("toString", "a"); ("comments", "author")]
      (fetchedOnce [("comments", "author")]) =
    (Thrown TypeError, fetchedOnce [("comments", "author")]).
Proof.
  destruct (captureFields_throws (fetchedOnce [("comments", "author")]) 1
              [("toString", "a"); ("comments", "author")]) as [_ H].
  apply (H [("comments", "author")] [] "toString" "a" [("comments", "author")]);
    reflexivity.
Defined.

(** ** The enumeration order does not matter *)

Lemma get_Some_iff (obj : fields) (key value : string) :
  NoDup (keys obj) -> get obj key = Some value <-> (key, value) ∈ obj.
Proof.
  intros Hnd. split; [apply get_elem_of|].
  induction obj as [|[k v] obj IH]; intros H; [inversion H|].
  apply NoDup_cons in Hnd as [Hk Hnd]. simpl.
  apply elem_of_cons in H as [[= -> ->]|H].
  - now rewrite String.eqb_refl.
  - destruct (String.eqb_spec k key) as [->|_]; [|exact (IH Hnd H)].
    exfalso. apply Hk. exact (elem_of_keys _ _ _ H).
Qed.

Lemma keys_Permutation (obj obj' : fields) : obj ≡ₚ obj' -> keys obj ≡ₚ keys obj'.
Proof. intros H. unfold keys. now apply Permutation_map. Qed.

Lemma get_Permutation (obj obj' : fields) (key : string) :
  NoDup (keys obj) -> obj ≡ₚ obj' -> get obj key = get obj' key.
Proof.
  intros Hnd Hp.
  assert (NoDup (keys obj')) as Hnd' by (now rewrite <- (keys_Permutation _ _ Hp)).
  destruct (get obj key) as [v|] eqn:E.
  - symmetry. apply get_Some_iff; [exact Hnd'|]. rewrite <- Hp.
    now apply get_Some_iff.
  - destruct (get obj' key) as [v'|] eqn:E'; [|reflexivity].
    apply get_Some_iff in E'; [|exact Hnd']. rewrite <- Hp in E'.
    apply get_Some_iff in E'; [congruence | exact Hnd].
Qed.

Lemma plainKeys_Permutation (obj obj' : fields) :
  obj ≡ₚ obj' -> plainKeys obj = true -> plainKeys obj' = true.
Proof.
  intros Hp H. unfold plainKeys in *. rewrite forallb_forall in *.
  intros key Hkey. apply H. apply list_elem_of_In. apply list_elem_of_In in Hkey.
  now rewrite (keys_Permutation _ _ Hp).
Qed.

(** X8: for a request none of whose group keys names a member of
    [Object.prototype], the answer of [equalFields] does not depend on
    the order in which [for ... in] visits the groups of the request, nor
    on the order of the history entries: a request with the same
    properties in another order gets the same answer from a history with
    the same entries in another order. *)
Theorem equalFields_order (h h' : list fields) (request request' : fields) :
  plainKeys request = true ->
  NoDup (keys request) -> request ≡ₚ request' -> h ≡ₚ h' ->
  equalFields h request = equalFields h' request'.
Proof.
  intros Hplain Hnd Hpr Hph.
  pose proof (plainKeys_Permutation _ _ Hpr Hplain) as Hplain'.
  destruct (equalFields_plain h request Hplain) as (b & -> & Hiff).
  destruct (equalFields_plain h' request' Hplain') as (b' & -> & Hiff').
  f_equal. apply eq_true_iff_eq. rewrite Hiff, Hiff'.
  assert (forall entry, coversTruthy entry request <-> coversTruthy entry request')
    as Hcov.
  { intros entry. split; intros Hc key Hkey.
    - rewrite <- (keys_Permutation _ _ Hpr) in Hkey.
      destruct (Hc key Hkey) as (c & r & H1 & H2 & H3 & H4).
      exists c, r. rewrite <- (get_Permutation _ _ key Hnd Hpr). auto.
    - rewrite (keys_Permutation _ _ Hpr) in Hkey.
      destruct (Hc key Hkey) as (c & r & H1 & H2 & H3 & H4).
      exists c, r. rewrite (get_Permutation _ _ key Hnd Hpr). auto. }
  assert (keys request <> [] <-> keys request' <> []) as Hkeys.
  { pose proof (keys_Permutation _ _ Hpr) as Hk. split; intros H E; apply H.
    - rewrite E in Hk. now apply Permutation_nil_r in Hk.
    - rewrite E in Hk. now apply Permutation_nil_l in Hk. }
  rewrite Hkeys. split; intros (Hk & entry & Hin & Hc); (split; [exact Hk|]);
    exists entry; (split; [| now apply Hcov]).
  - now rewrite <- Hph.
  - now rewrite Hph.
Qed.

Lemma equalFields_order_witness :
  equalFields [[("posts", "title")]; [("comments", "author,body"); ("posts", "title")]]
              [("posts", "title"); ("comments", "body")] =
  equalFields [[("comments", "author,body"); ("posts", "title")]; [("posts", "title")]]
              [("comments", "body"); ("posts", "title")].
Proof.
  apply equalFields_order.
  - reflexivity.
  - apply NoDup_cons. split; [|apply NoDup_singleton].
    intros H. apply list_elem_of_singleton in H. discriminate.
  - apply perm_swap.
  - apply perm_swap.
Defined.

(** ** What call sequences keep *)

Lemma irredundant_snoc (h : list fields) (request : fields) :
  irredundant h -> equalFields h request = Returned false ->
  irredundant (h ++ [request]).
Proof.
  intros Hh Hr before entry after Heq.
  destruct after as [|x after _] using rev_ind.
  - apply app_inj_tail in Heq as [<- <-]. exact Hr.
  - change (entry :: after ++ [x]) with ((entry :: after) ++ [x]) in Heq.
    rewrite app_assoc in Heq. apply app_inj_tail in Heq as [Heq _].
    exact (Hh before entry after Heq).
Qed.

Lemma irredundant_nil : irredundant [].
Proof. intros before entry after H. now destruct before. Qed.

Lemma cacheInvariant_same_map (w w' : world) :
  FieldsForRecord w' = FieldsForRecord w -> cacheInvariant w -> cacheInvariant w'.
Proof. intros Heq H rec. unfold history. rewrite Heq. exact (H rec). Qed.

Lemma captureFields_cacheInvariant (rec : recordRef) (request : fields) (w : world) :
  cacheInvariant w -> cacheInvariant (snd (captureFields rec request w)).
Proof.
  intros Hw. rewrite captureFields_unfold.
  destruct (equalFields (history w rec) request) as [[|]|e] eqn:E; simpl;
    try exact Hw.
  intros rec'. destruct (decide (rec = rec')) as [<-|Hne].
  - rewrite history_withHistory. split.
    + simpl. rewrite lookup_insert_eq. intros [= H].
      now apply app_eq_nil in H as [_ H].
    + apply irredundant_snoc; [apply Hw | exact E].
  - rewrite history_withHistory_ne by exact Hne. split; [|apply Hw].
    simpl. rewrite lookup_insert_ne by exact Hne. apply Hw.
Qed.

Lemma shouldReloadRecord_cacheInvariant (this : adapter) (st : store) (s : snapshot)
    (w : world) :
  cacheInvariant w -> cacheInvariant (snd (shouldReloadRecord this st s w)).
Proof.
  intros Hw. rewrite shouldReloadRecord_unfold.
  destruct (if supportsJSONAPIFields this then snapshotFields_of s else None);
    [now apply captureFields_cacheInvariant | exact Hw].
Qed.

Section SequenceProperties.

Variable super_findRecord : adapter -> modelClass -> string -> snapshot -> request.

Lemma perform_cacheInvariant (c : call) (w : world) :
  cacheInvariant w -> cacheInvariant (snd (perform super_findRecord c w)).
Proof.
  intros Hw. destruct c as [rec request | this st s | this st ty i s];
    unfold perform, bind.
  - pose proof (captureFields_cacheInvariant rec request w Hw) as H.
    now destruct (captureFields rec request w) as [[b|e] w'].
  - pose proof (shouldReloadRecord_cacheInvariant this st s w Hw) as H.
    now destruct (shouldReloadRecord this st s w) as [[b|e] w'].
  - pose proof (findRecord_FieldsForRecord super_findRecord this st ty i s w) as H.
    assert (cacheInvariant (snd (findRecord super_findRecord this st ty i s w))) as Hf.
    { destruct (snapshotFields_of s) as [request|];
        [|exact (cacheInvariant_same_map _ _ H Hw)].
      destruct (supportsJSONAPIFields this);
        [|exact (cacheInvariant_same_map _ _ H Hw)].
      exact (cacheInvariant_same_map _ _ H
               (captureFields_cacheInvariant (record s) request w Hw)). }
    now destruct (findRecord super_findRecord this st ty i s w) as [[b|e] w'].
Qed.

(** X9: a request that is skipped stays skipped: if [captureFields]
    answers [false] for a record and a request, it still answers [false],
    and changes nothing, after any sequence of calls of [captureFields],
    [shouldReloadRecord] and [findRecord], for this or other records. *)
Theorem covered_stays_covered (w : world) (rec : recordRef) (request : fields)
    (cs : list call) :
  fst (captureFields rec request w) = Returned false ->
  captureFields rec request (snd (performAll super_findRecord cs w)) =
    (Returned false, snd (performAll super_findRecord cs w)).
Proof.
  rewrite !captureFields_unfold. intros H.
  destruct (equalFields (history w rec) request) as [[|]|e] eqn:E; try discriminate.
  destruct (performAll_grows super_findRecord cs w rec) as (added & -> & _).
  now rewrite (equalFields_app _ added _ E).
Qed.

(** X10: two facts hold of the empty cache and are kept by every call
    of [captureFields], [shouldReloadRecord] and [findRecord], hence by
    every sequence of them: the [WeakMap] never holds an empty array, and
    no history entry was covered by the entries recorded before it. *)
Theorem cacheInvariant_kept (w : world) (cs : list call) :
  cacheInvariant emptyWorld /\
  (cacheInvariant w -> cacheInvariant (snd (performAll super_findRecord cs w))).
Proof.
  split.
  - intros rec. unfold history, emptyWorld. simpl. rewrite lookup_empty.
    split; [discriminate | apply irredundant_nil].
  - revert w. induction cs as [|c cs IH]; intros w Hw; simpl; [exact Hw|].
    exact (IH _ (perform_cacheInvariant c w Hw)).
Qed.

(** X17: requests without a group key pile up: each of [n] calls of
    [captureFields] with the empty mapping appends one more empty entry
    to the record's history, whatever the history held before. *)
Theorem empty_requests_pile_up (w : world) (rec : recordRef) (n : nat) :
  history (snd (performAll super_findRecord (repeat (CaptureFields rec []) n) w)) rec =
    history w rec ++ repeat [] n.
Proof.
  revert w. induction n as [|n IH]; intros w; simpl; [now rewrite app_nil_r|].
  rewrite IH. unfold bind.
  rewrite captureFields_unfold, equalFields_no_keys. simpl.
  rewrite history_withHistory, <- app_assoc. reflexivity.
Qed.

(** X12: [findRecord] settles the cache before the inherited
    [findRecord] is reached.  With [supportsJSONAPIFields] and a field
    mapping in the snapshot it leaves the cache as [captureFields] leaves
    it for the snapshot's record and mapping, and when [captureFields]
    throws, [findRecord] throws the same exception and nothing has
    changed: no request has been handed to [this.ajax].  Without the
    flag the cache is never touched, and the deprecation
    [ember-data:-built-in-fields-support] is raised when the snapshot
    carries a field mapping.  Without a field mapping the cache is as
    before. *)
Theorem findRecord_records_first (this : adapter) (st : store) (ty : modelClass)
    (i : string) (s : snapshot) (w : world) :
  (supportsJSONAPIFields this = true ->
   forall request, snapshotFields_of s = Some request ->
     FieldsForRecord (snd (findRecord super_findRecord this st ty i s w)) =
       FieldsForRecord (snd (captureFields (record s) request w)) /\
     forall e, fst (captureFields (record s) request w) = Thrown e ->
       findRecord super_findRecord this st ty i s w = (Thrown e, w)) /\
  (supportsJSONAPIFields this = false ->
     FieldsForRecord (snd (findRecord super_findRecord this st ty i s w)) =
       FieldsForRecord w /\
     forall request, snapshotFields_of s = Some request ->
       "ember-data:-built-in-fields-support" ∈
         deprecations (snd (findRecord super_findRecord this st ty i s w))) /\
  (snapshotFields_of s = None ->
     FieldsForRecord (snd (findRecord super_findRecord this st ty i s w)) =
       FieldsForRecord w).
Proof.
  pose proof (findRecord_FieldsForRecord super_findRecord this st ty i s w) as Hmap.
  split; [|split].
  - intros Hon request Hs. rewrite Hs, Hon in Hmap. split; [exact Hmap|].
    intros e He. unfold findRecord, bind. rewrite Hs, Hon.
    pose proof (captureFields_unfold (record s) request w) as Hu.
    destruct (equalFields (history w (record s)) request) as [[|]|e'];
      rewrite Hu in He |- *; simpl in *; congruence.
  - intros Hoff. rewrite Hoff in Hmap. split.
    + now destruct (snapshotFields_of s).
    + intros request Hs. unfold findRecord, bind. rewrite Hs, Hoff. simpl.
      apply elem_of_app. right. left.
  - intros Hs. now rewrite Hs in Hmap.
Qed.

(** X13: [findRecord] and [shouldReloadRecord] agree on what has been
    fetched.  For adapters with [supportsJSONAPIFields] and snapshots of
    one record that carry the same field mapping, with at least one group
    key, none of them the name of a member of [Object.prototype], and no
    empty field string: after [findRecord], [shouldReloadRecord] answers
    [false] and changes nothing; and after [shouldReloadRecord], whatever
    it answered, [findRecord] adds no further history entry. *)
Theorem findRecord_then_shouldReloadRecord (this this' : adapter) (st : store)
    (ty : modelClass) (i : string) (s s' : snapshot) (request : fields) (w : world) :
  supportsJSONAPIFields this = true -> supportsJSONAPIFields this' = true ->
  record s = record s' ->
  snapshotFields_of s = Some request -> snapshotFields_of s' = Some request ->
  keys request <> [] -> plainKeys request = true -> noEmptyString request ->
  shouldReloadRecord this' st s' (snd (findRecord super_findRecord this st ty i s w)) =
    (Returned false, snd (findRecord super_findRecord this st ty i s w)) /\
  FieldsForRecord
      (snd (findRecord super_findRecord this st ty i s
              (snd (shouldReloadRecord this' st s' w)))) =
    FieldsForRecord (snd (shouldReloadRecord this' st s' w)).
Proof.
  intros Hon Hon' Hrec Hs Hs' Hk Hplain Hne.
  destruct (captureFields_covering_entry w (record s) request Hplain Hk Hne)
    as (entry & Hin & Hc).
  split.
  - rewrite shouldReloadRecord_unfold, Hon', Hs', <- Hrec.
    apply captureFields_hit; [exact Hplain | exact Hk|]. exists entry. split; [|exact Hc].
    unfold history in *.
    now rewrite findRecord_FieldsForRecord, Hs, Hon.
  - rewrite findRecord_FieldsForRecord, Hs, Hon.
    rewrite shouldReloadRecord_unfold, Hon', Hs', <- Hrec.
    rewrite (captureFields_hit _ (record s) request Hplain Hk); [reflexivity|].
    exists entry. split; [exact Hin | exact Hc].
Qed.

End SequenceProperties.

Lemma covered_stays_covered_witness :
  captureFields 1 [("comments", "author")]
      (snd (performAll (fun _ _ _ _ => Request "/posts/1" "GET" JNull)
              [CaptureFields 1 [("posts", "title")]; CaptureFields 2 []]
              (fetchedOnce [("comments", "author,body")]))) =
    (Returned false,
     snd (performAll (fun _ _ _ _ => Request "/posts/1" "GET" JNull)
            [CaptureFields 1 [("posts", "title")]; CaptureFields 2 []]
            (fetchedOnce [("comments", "author,body")]))).
Proof.
  apply (covered_stays_covered (fun _ _ _ _ => Request "/posts/1" "GET" JNull)
           (fetchedOnce [("comments", "author,body")]) 1 [("comments", "author")]).
  reflexivity.
Defined.

Lemma cacheInvariant_kept_witness :
  cacheInvariant
    (snd (performAll (fun _ _ _ _ => Request "/posts/1" "GET" JNull)
            [CaptureFields 1 [("comments", "author")];
             ShouldReloadRecord (Adapter true false None None) Store
               (Snapshot 1 "1" (Some (AdapterOptions (Some [("comments", "author")]))))]
            emptyWorld)).
Proof.
  destruct (cacheInvariant_kept (fun _ _ _ _ => Request "/posts/1" "GET" JNull)
              emptyWorld
              [CaptureFields 1 [("comments", "author")];
               ShouldReloadRecord (Adapter true false None None) Store
                 (Snapshot 1 "1" (Some (AdapterOptions (Some [("comments", "author")]))))])
    as [Hempty Hkept].
  exact (Hkept Hempty).
Defined.

Lemma findRecord_records_first_witness :
  findRecord (fun _ _ _ _ => Request "/posts/1" "GET" JNull)
      (Adapter true false None None) Store (ModelClass "post") "1"
      (Snapshot 1 "1" (Some (AdapterOptions (Some [("constructor", "c")]))))
      (fetchedOnce [("x", "1")]) =
    (Thrown TypeError, fetchedOnce [("x", "1")]) /\
  "ember-data:-built-in-fields-support" ∈
    deprecations
      (snd (findRecord (fun _ _ _ _ => Request "/posts/1" "GET" JNull)
              (Adapter false false None None) Store (ModelClass "post") "1"
              (Snapshot 1 "1" (Some (AdapterOptions (Some [("comments", "author")]))))
              emptyWorld)).
Proof.
  destruct (findRecord_records_first (fun _ _ _ _ => Request "/posts/1" "GET" JNull)
              (Adapter true false None None) Store (ModelClass "post") "1"
              (Snapshot 1 "1" (Some (AdapterOptions (Some [("constructor", "c")]))))
              (fetchedOnce [("x", "1")])) as (Hon & _ & _).
  destruct (findRecord_records_first (fun _ _ _ _ => Request "/posts/1" "GET" JNull)
              (Adapter false false None None) Store (ModelClass "post") "1"
              (Snapshot 1 "1" (Some (AdapterOptions (Some [("comments", "author")]))))
              emptyWorld) as (_ & Hoff & _).
  split.
  - destruct (Hon eq_refl [("constructor", "c")] eq_refl) as [_ Hthrow].
    apply Hthrow. reflexivity.
  - destruct (Hoff eq_refl) as [_ Hdep]. apply (Hdep [("comments", "author")]).
    reflexivity.
Defined.

Lemma findRecord_then_shouldReloadRecord_witness :
  fst (shouldReloadRecord (Adapter true true None None) Store
         (Snapshot 1 "1" (Some (AdapterOptions (Some [("comments", "author")]))))
         (snd (findRecord (fun _ _ _ _ => Request "/posts/1" "GET" JNull)
                 (Adapter true false None None) Store (ModelClass "post") "1"
                 (Snapshot 1 "1" (Some (AdapterOptions (Some [("comments", "author")]))))
                 emptyWorld))) = Returned false.
Proof.
  destruct (findRecord_then_shouldReloadRecord
              (fun _ _ _ _ => Request "/posts/1" "GET" JNull)
              (Adapter true false None None) (Adapter true true None None) Store
              (ModelClass "post") "1"
              (Snapshot 1 "1" (Some (AdapterOptions (Some [("comments", "author")]))))
              (Snapshot 1 "1" (Some (AdapterOptions (Some [("comments", "author")]))))
              [("comments", "author")] emptyWorld) as [H _].
  - reflexivity.
  - reflexivity.
  - reflexivity.
  - reflexivity.
  - reflexivity.
  - discriminate.
  - reflexivity.
  - intros key value Hin. apply list_elem_of_singleton in Hin as [= _ ->]. discriminate.
  - now rewrite H.
Defined.

(** ** shouldReloadRecord *)

(** X11: for a snapshot whose field mapping has no group key naming a
    member of [Object.prototype], [shouldReloadRecord] answers [true]
    exactly when the adapter has [supportsJSONAPIFields] set and it is
    not the case that the mapping has a group key and one single history
    entry of the snapshot's record holds, for every group key of the
    mapping, a non-empty cached string whose field set includes the
    requested one.  Whenever it answers [true] it has recorded the
    mapping as the last history entry; whenever it answers [false] or
    throws, and for a snapshot without a field mapping, the world is as
    before. *)
Theorem shouldReloadRecord_true_iff (this : adapter) (st : store) (s : snapshot)
    (w : world) :
  (forall request,
     snapshotFields_of s = Some request -> plainKeys request = true ->
     (fst (shouldReloadRecord this st s w) = Returned true <->
        supportsJSONAPIFields this = true /\
        ~ (keys request <> [] /\
           exists entry, entry ∈ history w (record s) /\ coversTruthy entry request))) /\
  (forall request,
     fst (shouldReloadRecord this st s w) = Returned true ->
     snapshotFields_of s = Some request ->
     history (snd (shouldReloadRecord this st s w)) (record s) =
       history w (record s) ++ [request]) /\
  (fst (shouldReloadRecord this st s w) <> Returned true ->
     snd (shouldReloadRecord this st s w) = w) /\
  (snapshotFields_of s = None -> shouldReloadRecord this st s w = (Returned false, w)).
Proof.
  rewrite shouldReloadRecord_unfold.
  destruct (supportsJSONAPIFields this); simpl.
  2:{ split; [|split; [|split]].
      - intros request _ _. split; [discriminate | intros [H _]; discriminate].
      - intros request H. discriminate.
      - reflexivity.
      - reflexivity. }
  destruct (snapshotFields_of s) as [request|] eqn:Hs.
  2:{ split; [|split; [|split]].
      - intros request H. discriminate.
      - intros request H. discriminate.
      - reflexivity.
      - reflexivity. }
  rewrite captureFields_unfold. split; [|split; [|split]].
  - intros request' [= <-] Hplain.
    destruct (equalFields_plain (history w (record s)) request Hplain) as (b & -> & Hiff).
    rewrite <- Hiff. destruct b; simpl; split; try discriminate.
    + intros [_ H]. now contradiction H.
    + intros _. split; [reflexivity | discriminate].
    + reflexivity.
  - intros request' Ht [= <-].
    destruct (equalFields (history w (record s)) request) as [[|]|e]; simpl in *;
      try discriminate.
    apply history_withHistory.
  - destruct (equalFields (history w (record s)) request) as [[|]|e]; simpl;
      try reflexivity. intros H. now contradiction H.
  - discriminate.
Qed.

Lemma shouldReloadRecord_true_iff_witness :
  fst (shouldReloadRecord (Adapter true false None None) Store
         (Snapshot 1 "1" (Some (AdapterOptions (Some [("comments", "body")]))))
         (fetchedOnce [("comments", "author")])) = Returned true /\
  shouldReloadRecord (Adapter true false None None) Store (Snapshot 1 "1" None)
      (fetchedOnce [("comments", "author")]) =
    (Returned false, fetchedOnce [("comments", "author")]).
Proof.
  destruct (shouldReloadRecord_true_iff (Adapter true false None None) Store
              (Snapshot 1 "1" (Some (AdapterOptions (Some [("comments", "body")]))))
              (fetchedOnce [("comments", "author")])) as (Hiff & _).
  destruct (shouldReloadRecord_true_iff (Adapter true false None None) Store
              (Snapshot 1 "1" None) (fetchedOnce [("comments", "author")]))
    as (_ & _ & _ & Hnone).
  split; [|apply Hnone; reflexivity].
  apply (Hiff [("comments", "body")]); [reflexivity | reflexivity|].
  split; [reflexivity|]. intros (_ & entry & Hin & Hc).
  vm_compute in Hin. apply list_elem_of_singleton in Hin as ->.
  destruct (Hc "comments") as (c & r & Hget & _ & Hr & Hsub); [left|].
  injection Hget as <-. injection Hr as <-.
  specialize (Hsub "body"). vm_compute in Hsub.
  assert ("body" ∈ ["author"]) as Hbad by (apply Hsub; left).
  apply list_elem_of_singleton in Hbad. discriminate.
Defined.

(** ** Objects *)

Lemma getProp_setProp_eq {V} (obj : list (string * V)) (key : string) (value : V) :
  getProp (setProp obj key value) key = Some value.
Proof.
  induction obj as [|[k v] obj IH]; simpl.
  - now rewrite String.eqb_refl.
  - destruct (String.eqb k key) eqn:E; simpl; rewrite E; [reflexivity | exact IH].
Qed.

Lemma getProp_setProp_ne {V} (obj : list (string * V)) (key key' : string) (value : V) :
  key' <> key -> getProp (setProp obj key value) key' = getProp obj key'.
Proof.
  intros Hne. induction obj as [|[k v] obj IH]; simpl.
  - destruct (String.eqb_spec key key'); [congruence | reflexivity].
  - destruct (String.eqb_spec k key) as [->|Hk]; simpl.
    + destruct (String.eqb_spec key key'); [congruence | reflexivity].
    + destruct (String.eqb k key'); [reflexivity | exact IH].
Qed.

Lemma setProp_same {V} (obj : list (string * V)) (key : string) (value : V) :
  getProp obj key = Some value -> setProp obj key value = obj.
Proof.
  induction obj as [|[k v] obj IH]; simpl; [discriminate|].
  destruct (String.eqb_spec k key) as [->|Hk].
  - now intros [= ->].
  - intros H. now rewrite (IH H).
Qed.

Lemma setProp_keys {V} (obj : list (string * V)) (key : string) (value : V) :
  map fst (setProp obj key value) =
  match getProp obj key with
  | Some _ => map fst obj
  | None => map fst obj ++ [key]
  end.
Proof.
  induction obj as [|[k v] obj IH]; simpl; [reflexivity|].
  destruct (String.eqb_spec k key) as [->|Hk]; simpl; [reflexivity|].
  rewrite IH. now destruct (getProp obj key).
Qed.

Section SettingsProperties.

Variable super_ajaxOptions : adapter -> string -> string -> json -> hash.
Variable super_buildQuery : adapter -> snapshot -> list (string * queryValue).

(** X14: the settings [ajaxOptions] answers always carry a non-empty
    [Accept] header: the inherited one when that is a non-empty string,
    in which case the headers are exactly the inherited ones, and
    [application/vnd.api+json] when it is absent or empty.  Every other
    header and the rest of the settings are the inherited ones, no
    header is dropped or moved, and a missing [options] argument reaches
    the inherited method as the empty object. *)
Theorem ajaxOptions_accept (this : adapter) (u ty : string) (opts : option json) :
  let inherited := super_ajaxOptions this u ty (default (JObj []) opts) in
  let answered := ajaxOptions super_ajaxOptions this u ty opts in
  (exists accept,
     getProp (headers answered) "Accept" = Some accept /\ accept <> "" /\
     (forall a, getProp (headers inherited) "Accept" = Some a -> a <> "" -> accept = a) /\
     (getProp (headers inherited) "Accept" = None \/
      getProp (headers inherited) "Accept" = Some "" ->
      accept = "application/vnd.api+json")) /\
  (forall name, name <> "Accept" ->
     getProp (headers answered) name = getProp (headers inherited) name) /\
  (forall a, getProp (headers inherited) "Accept" = Some a -> a <> "" ->
     headers answered = headers inherited) /\
  map fst (headers answered) =
    match getProp (headers inherited) "Accept" with
    | Some _ => map fst (headers inherited)
    | None => map fst (headers inherited) ++ ["Accept"]
    end /\
  settings answered = settings inherited.
Proof.
  cbv zeta. unfold ajaxOptions.
  set (inherited := super_ajaxOptions this u ty (default (JObj []) opts)).
  simpl. split; [|split; [|split; [|split]]].
  - eexists. split; [apply getProp_setProp_eq|].
    destruct (getProp (headers inherited) "Accept") as [a|].
    + destruct (String.eqb_spec a "") as [->|Hne].
      * split; [discriminate|]. split; [|reflexivity].
        intros a [= <-] H. congruence.
      * split; [exact Hne|]. split; [now intros a' [= ->]|].
        intros [H|[= H]]; [discriminate | congruence].
    + split; [discriminate|]. split; [discriminate | reflexivity].
  - intros name Hne. now apply getProp_setProp_ne.
  - intros a Ha Hne. rewrite Ha.
    destruct (String.eqb_spec a "") as [?|_]; [contradiction|].
    now apply setProp_same.
  - apply setProp_keys.
  - reflexivity.
Qed.

(** X15: [buildQuery] answers the inherited query with, when the
    snapshot's adapter options carry a field mapping, the property
    [fields] set to that mapping and every other property as inherited;
    a snapshot without a field mapping gets the inherited query as it
    is.  The flag [supportsJSONAPIFields] plays no part. *)
Theorem buildQuery_fields (this : adapter) (s : snapshot) :
  (forall f, snapshotFields_of s = Some f ->
     getProp (buildQuery super_buildQuery this s) "fields" = Some (QFields f) /\
     (forall key, key <> "fields" ->
        getProp (buildQuery super_buildQuery this s) key =
        getProp (super_buildQuery this s) key) /\
     map fst (buildQuery super_buildQuery this s) =
       match getProp (super_buildQuery this s) "fields" with
       | Some _ => map fst (super_buildQuery this s)
       | None => map fst (super_buildQuery this s) ++ ["fields"]
       end) /\
  (snapshotFields_of s = None ->
     buildQuery super_buildQuery this s = super_buildQuery this s).
Proof.
  unfold buildQuery, snapshotFields_of.
  destruct (snapshot_adapterOptions s) as [o|].
  - destruct (adapterOptions_fields o) as [f0|].
    + split; [|discriminate]. intros f [= <-]. split; [apply getProp_setProp_eq|].
      split; [|apply setProp_keys].
      intros key Hne. now apply getProp_setProp_ne.
    + split; [discriminate | reflexivity].
  - split; [discriminate | reflexivity].
Qed.

End SettingsProperties.

Lemma ajaxOptions_accept_witness :
  getProp (headers (ajaxOptions
                      (fun _ _ _ _ => Hash [("Content-Type", "application/vnd.api+json")] JNull)
                      (Adapter false false None None) "/posts" "GET" None))
          "Accept" = Some "application/vnd.api+json" /\
  headers (ajaxOptions
             (fun _ _ _ _ => Hash [("Accept", "text/plain"); ("X-Token", "t")] JNull)
             (Adapter false false None None) "/posts" "GET" None) =
    [("Accept", "text/plain"); ("X-Token", "t")].
Proof.
  destruct (ajaxOptions_accept
              (fun _ _ _ _ => Hash [("Content-Type", "application/vnd.api+json")] JNull)
              (Adapter false false None None) "/posts" "GET" None)
    as ((accept & Hget & _ & _ & Hdefault) & _).
  destruct (ajaxOptions_accept
              (fun _ _ _ _ => Hash [("Accept", "text/plain"); ("X-Token", "t")] JNull)
              (Adapter false false None None) "/posts" "GET" None)
    as (_ & _ & Hkeep & _).
  split.
  - rewrite Hget. f_equal. apply Hdefault. left. reflexivity.
  - apply (Hkeep "text/plain"); [reflexivity | discriminate].
Defined.

Lemma buildQuery_fields_witness :
  getProp (buildQuery (fun _ _ => [("include", QJson (JStr "comments"))])
             (Adapter false false None None)
             (Snapshot 1 "1" (Some (AdapterOptions (Some [("post", "title")])))))
          "fields" = Some (QFields [("post", "title")]) /\
  buildQuery (fun _ _ => [("include", QJson (JStr "comments"))])
      (Adapter true false None None) (Snapshot 1 "1" (Some (AdapterOptions None))) =
    [("include", QJson (JStr "comments"))].
Proof.
  destruct (buildQuery_fields (fun _ _ => [("include", QJson (JStr "comments"))])
              (Adapter false false None None)
              (Snapshot 1 "1" (Some (AdapterOptions (Some [("post", "title")])))))
    as [Hsome _].
  destruct (buildQuery_fields (fun _ _ => [("include", QJson (JStr "comments"))])
              (Adapter true false None None)
              (Snapshot 1 "1" (Some (AdapterOptions None)))) as [_ Hnone].
  split.
  - destruct (Hsome [("post", "title")]) as [H _]; [reflexivity | exact H].
  - apply Hnone. reflexivity.
Defined.
